(** * WidgetFrame: access gating, message routing and notifiers

    A shallow embedding of [app/client/components/WidgetFrame.ts].

    JavaScript values that the file manipulates are represented directly:
    strings as [string], [Map] objects as [gmap], thrown exceptions as the
    [Throw] branch of [Outcome], and the objects whose methods have side
    effects (the grain-rpc endpoint, the wrapped implementations, the
    notifiers) as records threaded through the functions. *)

From stdpp Require Import base strings list gmap.
From Stdlib Require Import ZArith Lia.

Local Open Scope string_scope.
Local Open Scope nat_scope.
Local Open Scope list_scope.
Local Open Scope stdpp_scope.

(** ** JavaScript values and completions *)

Inductive JsValue : Type :=
| JsUndefined
| JsNull
| JsBool (b : bool)
| JsNumber (z : Z)
| JsString (s : string).

#[global] Instance JsValue_eq_dec : EqDecision JsValue.
Proof. solve_decision. Defined.

(** [new Error(message)]. *)
Inductive JsError : Type :=
| Error (message : string)
| TypeError (message : string).

#[global] Instance JsError_eq_dec : EqDecision JsError.
Proof. solve_decision. Defined.

Definition message (e : JsError) : string :=
  match e with Error s | TypeError s => s end.

(** A call either returns a value or throws. *)
Inductive Outcome (A : Type) : Type :=
| Return (a : A)
| Throw (e : JsError).
Arguments Return {A} a.
Arguments Throw {A} e.

(** JavaScript truthiness of an optional string ([!method], [msg.mdest]). *)
Definition truthy (s : option string) : bool :=
  match s with
  | None => false
  | Some s => negb (String.eqb s "")
  end.

(** [contains needle hay]: [hay.includes(needle)]. *)
Fixpoint contains (needle hay : string) : bool :=
  String.prefix needle hay
  || match hay with
     | EmptyString => false
     | String _ hay' => contains needle hay'
     end.

(** ** Access levels ([app/common/CustomWidget]) *)

Inductive AccessLevel : Type :=
| none
| read_table
| full.

#[global] Instance AccessLevel_eq_dec : EqDecision AccessLevel.
Proof. solve_decision. Defined.

(** Modelled from the spec: the enum [AccessLevel] is declared in
    [app/common/CustomWidget], which is not part of the sources at hand.
    The three levels are serialized as short string tokens; these are the
    enum's string values, as they appear when a level is concatenated to a
    message or appended to the widget URL. *)
Definition AccessLevel_token (level : AccessLevel) : string :=
  match level with
  | none => "none"
  | read_table => "read table"
  | full => "full"
  end.

(** Position of a level in the total order [none < read_table < full]. *)
Definition ordered (level : AccessLevel) : nat :=
  match level with
  | none => 0
  | read_table => 1
  | full => 2
  end.

(** Modelled from the spec: [isSatisfied] is imported from
    [app/common/CustomWidget], which is not part of the sources at hand.
    It is true iff the granted level is at least the minimum level under the
    total order of access levels. *)
Definition isSatisfied (current minimum : AccessLevel) : bool :=
  Nat.leb (ordered minimum) (ordered current).

(** [_options.access || AccessLevel.none]: an absent level is replaced. *)
Definition access_or_none (access : option AccessLevel) : AccessLevel :=
  match access with
  | Some level => level
  | None => none
  end.

(** ** Access checkers *)

(** [interface AccessChecker { check(access, method?): boolean }]. *)
Class AccessChecker (C : Type) : Type :=
  check : C -> AccessLevel -> option string -> Outcome bool.

(** [class MinimumLevel]. *)
Record MinimumLevel : Type := { _minimum : AccessLevel }.

#[global] Instance MinimumLevel_check : AccessChecker MinimumLevel :=
  fun self access _ => Return (isSatisfied access (_minimum self)).

(** [class MethodAccess]: [_accessMap] is a [Map] from method matcher (a
    method name or ['*']) to the minimum level. *)
Record MethodAccess : Type := { _accessMap : gmap string AccessLevel }.

Definition MethodAccess_new : MethodAccess := {| _accessMap := ∅ |}.

(** [require(level, method = '*')]. *)
Definition require (level : AccessLevel) (method : option string)
    (self : MethodAccess) : MethodAccess :=
  {| _accessMap := <[default "*" method := level]> (_accessMap self) |}.

#[global] Instance MethodAccess_check : AccessChecker MethodAccess :=
  fun self access method =>
    match method with
    | Some name =>
        if truthy method then
          match _accessMap self !! name with
          | Some minimum => Return (isSatisfied access minimum)
          | None =>
              match _accessMap self !! "*" with
              | Some minimum => Return (isSatisfied access minimum)
              | None => Return false
              end
          end
        else Throw (Error "Method name is required for MethodAccess check")
    | None => Throw (Error "Method name is required for MethodAccess check")
    end.

(** [GristDocAPIImpl.defaultAccess]. *)
Definition GristDocAPIImpl_defaultAccess : MethodAccess :=
  require full None (require read_table (Some "getDocName") MethodAccess_new).

(** ** Effects of a gated call

    A call through the gate can do two things that matter to its callers:
    evaluate the access checker, and enter a method of the wrapped
    implementation.  Both are recorded, in order. *)

Record CallLog : Type := {
  checked : list (AccessLevel * option string);
  invoked : list (string * list JsValue)
}.

Definition CallLog_empty : CallLog := {| checked := []; invoked := [] |}.

Definition Eff (A : Type) : Type := CallLog -> Outcome A * CallLog.

#[global] Instance Eff_ret : MRet Eff := fun A a log => (Return a, log).

#[global] Instance Eff_bind : MBind Eff := fun A B k m log =>
  match m log with
  | (Return a, log') => k a log'
  | (Throw e, log') => (Throw e, log')
  end.

Definition throw {A : Type} (e : JsError) : Eff A := fun log => (Throw e, log).

(** The erased checker stored in a closure: [accessChecker.check]. *)
Definition Checker : Type := AccessLevel -> option string -> Outcome bool.

Definition checker_of {C : Type} `{AccessChecker C} (c : C) : Checker := check c.

(** [accessChecker.check(access, method)], observed. *)
Definition run_check (c : Checker) (access : AccessLevel)
    (method : option string) : Eff bool := fun log =>
  (c access method,
   {| checked := checked log ++ [(access, method)]; invoked := invoked log |}).

(** An object exposed to the widget: [target[methodName]] is a function, or
    [undefined] when the object has no such member.  What a method does
    inside the host is summarized by the completion of the call. *)
Definition Impl : Type := string -> option (list JsValue -> Outcome JsValue).

(** [target[methodName](...arguments)]. *)
Definition call_method (target : Impl) (methodName : string)
    (arguments : list JsValue) : Eff JsValue := fun log =>
  match target methodName with
  | Some body =>
      (body arguments,
       {| checked := checked log;
          invoked := invoked log ++ [(methodName, arguments)] |})
  | None => (Throw (TypeError "target[methodName] is not a function"), log)
  end.

(** The failure built by [throwError]. *)
Definition access_denied (access : AccessLevel) : JsError :=
  Error ("Access not granted. Current access level "
           +:+ AccessLevel_token access).

(** [throwError(access)]. *)
Definition throwError {A : Type} (access : AccessLevel) : Eff A :=
  throw (access_denied access).

(** The proxy returned by [wrapObject(impl, accessChecker, access)]: the
    three values its [get] trap closes over. *)
Record Wrapped : Type := {
  impl : Impl;
  accessChecker : Checker;
  wrapped_access : AccessLevel
}.

Definition wrapObject {C : Type} `{AccessChecker C}
    (impl : Impl) (accessChecker : C) (access : AccessLevel) : Wrapped :=
  {| impl := impl;
     accessChecker := checker_of accessChecker;
     wrapped_access := access |}.

(** The [get] trap: [proxy_get w methodName] is the function obtained by
    reading member [methodName] of the proxy; applying it to [arguments]
    runs the body of the trap's inner function. *)
Definition proxy_get (w : Wrapped) (methodName : string)
    (arguments : list JsValue) : Eff JsValue :=
  if String.eqb methodName "then" then mret JsUndefined
  else
    ok ← run_check (accessChecker w) (wrapped_access w) (Some methodName);
    if ok : bool then call_method (impl w) methodName arguments
    else throwError (wrapped_access w).

(** ** Notifications sent to the widget *)

(** [activeCustomOptions]: a JSON object, or [null]. *)
Definition CustomOptions : Type := option (gmap string JsValue).

Inductive EventData : Type :=
| CursorState (tableId : string) (rowId : option Z) (dataChange : bool)
| ConfigState (options : CustomOptions) (accessLevel : AccessLevel).

#[global] Instance EventData_eq_dec : EqDecision EventData.
Proof. solve_decision. Defined.

(** ** Host state observed by the notifiers *)

(** The parts of [BaseView] and [ViewSectionRec] the notifiers read or
    subscribe to. *)
Record Host : Type := {
  tableId : string;                     (* viewSection.table().tableId() *)
  cursor_rowId : option Z;              (* cursor.getCursorPos().rowId *)
  viewFields : list string;             (* viewSection.viewFields() *)
  sortedRows : list Z;                  (* sortedRows.getKoArray() *)
  activeCustomOptions : CustomOptions   (* section.activeCustomOptions *)
}.

(** A change of host state, as seen by the subscribers of the observable
    it goes through. *)
Inductive Mutation : Type :=
| moveCursor (rowId : option Z)         (* cursor.rowIndex fires *)
| setViewFields (fields : list string)  (* viewFields() fires *)
| rowNotify                             (* sortedRows emits 'rowNotify' *)
| setSortedRows (rows : list Z)         (* sortedRows.getKoArray() fires *)
| setOptions (options : CustomOptions). (* activeCustomOptions fires *)

Definition mutate (m : Mutation) (h : Host) : Host :=
  match m with
  | moveCursor r =>
      {| tableId := tableId h; cursor_rowId := r; viewFields := viewFields h;
         sortedRows := sortedRows h;
         activeCustomOptions := activeCustomOptions h |}
  | setViewFields fs =>
      {| tableId := tableId h; cursor_rowId := cursor_rowId h;
         viewFields := fs; sortedRows := sortedRows h;
         activeCustomOptions := activeCustomOptions h |}
  | rowNotify => h
  | setSortedRows rows =>
      {| tableId := tableId h; cursor_rowId := cursor_rowId h;
         viewFields := viewFields h; sortedRows := rows;
         activeCustomOptions := activeCustomOptions h |}
  | setOptions o =>
      {| tableId := tableId h; cursor_rowId := cursor_rowId h;
         viewFields := viewFields h; sortedRows := sortedRows h;
         activeCustomOptions := o |}
  end.

(** [rowId || undefined]. *)
Definition or_undefined (rowId : option Z) : option Z :=
  match rowId with
  | Some 0%Z => None
  | other => other
  end.

(** ** Event sources *)

(** The three subclasses of [BaseEventSource], with the fields each adds.
    For [ConfigNotifier], [_currentConfig] is the value last computed by
    the [Computed] over [activeCustomOptions]. *)
Inductive NotifierClass : Type :=
| RecordNotifier
| ConfigNotifier (_accessLevel : AccessLevel) (_currentConfig : CustomOptions)
| TableNotifier.

(** An event source.  [pending] is the state of the timer behind
    [debounce(() => this._update(), 0)]: set by a call of [_debounced],
    cleared when the timer fires at the end of the scheduling turn.
    [emitted] lists the payloads of [trigger('event', data)], oldest
    first. *)
Record Notifier : Type := {
  class : NotifierClass;
  isDisposed : bool;
  pending : bool;
  emitted : list EventData
}.

Definition RecordNotifier_new : Notifier :=
  {| class := RecordNotifier; isDisposed := false; pending := false;
     emitted := [] |}.

Definition ConfigNotifier_new (h : Host) (accessLevel : AccessLevel)
    : Notifier :=
  {| class := ConfigNotifier accessLevel (activeCustomOptions h);
     isDisposed := false; pending := false; emitted := [] |}.

Definition TableNotifier_new : Notifier :=
  {| class := TableNotifier; isDisposed := false; pending := false;
     emitted := [] |}.

Definition Notifier_dispose (n : Notifier) : Notifier :=
  {| class := class n; isDisposed := true; pending := pending n;
     emitted := emitted n |}.

(** [this._debounced()]. *)
Definition _debounced (n : Notifier) : Notifier :=
  {| class := class n; isDisposed := isDisposed n; pending := true;
     emitted := emitted n |}.

(** [_ready()]: the base class does nothing; [ConfigNotifier] and
    [TableNotifier] override it, [RecordNotifier] does not. *)
Definition _ready (n : Notifier) : Notifier :=
  match class n with
  | RecordNotifier => n
  | ConfigNotifier _ _ => _debounced n
  | TableNotifier => _debounced n
  end.

(** The listener installed by [attach]: [listenTo(frame, 'ready', ...)]
    ends when the source is disposed. *)
Definition on_ready (n : Notifier) : Notifier :=
  if isDisposed n then n else _ready n.

(** The subscriptions made by the three constructors; all of them end when
    the source is disposed. *)
Definition notice (m : Mutation) (n : Notifier) : Notifier :=
  if isDisposed n then n
  else
    match class n, m with
    | RecordNotifier, moveCursor _ => _debounced n
    | TableNotifier, setViewFields _ => _debounced n
    | TableNotifier, rowNotify => _debounced n
    | TableNotifier, setSortedRows _ => _debounced n
    | ConfigNotifier level prev, setOptions cur =>
        let n' := {| class := ConfigNotifier level cur;
                     isDisposed := isDisposed n; pending := pending n;
                     emitted := emitted n |} in
        if decide (prev = cur) then n' else _debounced n'
    | _, _ => n
    end.

(** The payload built by [_update]. *)
Definition state (h : Host) (n : Notifier) : EventData :=
  match class n with
  | RecordNotifier =>
      CursorState (tableId h) (or_undefined (cursor_rowId h)) false
  | ConfigNotifier level config => ConfigState config level
  | TableNotifier =>
      CursorState (tableId h) (or_undefined (cursor_rowId h)) true
  end.

(** [_notify(data)]. *)
Definition _notify (data : EventData) (n : Notifier) : Notifier :=
  if isDisposed n then n
  else {| class := class n; isDisposed := isDisposed n; pending := pending n;
          emitted := emitted n ++ [data] |}.

(** [_update()]. *)
Definition _update (h : Host) (n : Notifier) : Notifier :=
  if isDisposed n then n else _notify (state h n) n.

(** End of a scheduling turn.  [debounce] (lodash) with a zero delay
    collapses the calls of [_debounced] made during the turn into one
    trailing call of [_update]: the timer, if armed, fires once. *)
Definition fire (h : Host) (n : Notifier) : Notifier :=
  if pending n then
    _update h {| class := class n; isDisposed := isDisposed n;
                 pending := false; emitted := emitted n |}
  else n.

(** A scheduling turn over a notifier: the mutations happen one after the
    other, each seen by the notifier, then the timers fire. *)
Fixpoint mutations (ms : list Mutation) (hn : Host * Notifier)
    : Host * Notifier :=
  match ms with
  | [] => hn
  | m :: ms' => mutations ms' (mutate m (fst hn), notice m (snd hn))
  end.

Definition turn (ms : list Mutation) (hn : Host * Notifier)
    : Host * Notifier :=
  let hn' := mutations ms hn in (fst hn', fire (fst hn') (snd hn')).

(** ** The grain-rpc endpoint owned by the frame *)

(** [MsgType] of grain-rpc. *)
Inductive MsgType : Type := RpcCall | RpcRespData | RpcRespErr | Custom | Ready.

#[global] Instance MsgType_eq_dec : EqDecision MsgType.
Proof. solve_decision. Defined.

(** A message of the transport: type tag, destination tag ([undefined] when
    the field is missing) and the fields of a call. *)
Record IMessage : Type := {
  mtype : MsgType;
  mdest : option string;
  iface : option string;
  meth : string;
  args : list JsValue
}.

#[global] Instance IMessage_eq_dec : EqDecision IMessage.
Proof. solve_decision. Defined.

Definition set_mdest (dest : option string) (msg : IMessage) : IMessage :=
  {| mtype := mtype msg; mdest := dest; iface := iface msg;
     meth := meth msg; args := args msg |}.

(** Where grain-rpc sends a message it receives: it tests [msg.mdest] for
    truthiness, forwards to that destination when set and handles the
    message itself otherwise. *)
Inductive Route : Type := Local | Forward (dest : string).

Definition route (msg : IMessage) : Route :=
  match mdest msg with
  | Some dest => if truthy (mdest msg) then Forward dest else Local
  | None => Local
  end.

(** A window, identified by reference. *)
Definition Window : Type := nat.

(** The function installed by [setSendMessage]. *)
Inductive Sender : Type :=
| postToIframe   (* msg => this._iframe?.contentWindow!.postMessage(msg, '*') *)
| noop.

(** The closure registered by [exposeMethod]: it keeps [handler] and
    [access], and reads [this._options.access] when it is called. *)
Record ExposedMethod : Type := {
  handler : list JsValue -> Outcome JsValue;
  method_access : Checker
}.

(** The endpoint.  grain-rpc keeps one map of implementations by name;
    [registerFunc(name, f)] is [registerImpl(name, {invoke: f})] in that
    map.  The map is held here in two parts with disjoint domains:
    [_implMap] has the objects registered by [registerImpl], [_funcs] the
    functions registered by [registerFunc].  A name in either part is a
    name in use. *)
Record Rpc : Type := {
  _sendMessage : Sender;
  _implMap : gmap string Wrapped;
  _funcs : gmap string ExposedMethod;
  received : list IMessage       (* arguments of receiveMessage, in order *)
}.

Definition Rpc_new : Rpc :=
  {| _sendMessage := noop; _implMap := ∅; _funcs := ∅; received := [] |}.

Definition setSendMessage (s : Sender) (rpc : Rpc) : Rpc :=
  {| _sendMessage := s; _implMap := _implMap rpc; _funcs := _funcs rpc;
     received := received rpc |}.

(** [this._implMap.has(name)]. *)
Definition in_use (name : string) (rpc : Rpc) : bool :=
  bool_decide (is_Some (_implMap rpc !! name))
  || bool_decide (is_Some (_funcs rpc !! name)).

(** [this._implMap.set(name, ...)] for an object: the last statement of
    [registerImpl], reached when the name is not in use. *)
Definition set_impl (name : string) (w : Wrapped) (rpc : Rpc) : Rpc :=
  {| _sendMessage := _sendMessage rpc;
     _implMap := <[name := w]> (_implMap rpc);
     _funcs := _funcs rpc; received := received rpc |}.

(** The failure of a registration under a name in use. *)
Definition already_registered (name : string) : JsError :=
  Error ("Rpc.registerImpl has already been called for " +:+ name).

(** [registerImpl(name, impl)]: a name can be registered once. *)
Definition registerImpl (name : string) (w : Wrapped) (rpc : Rpc)
    : Outcome Rpc :=
  if in_use name rpc then Throw (already_registered name)
  else Return (set_impl name w rpc).

(** [unregisterImpl(name)], as the cleanup registered by [exposeAPI]
    calls it: for a name that [exposeAPI] registered. *)
Definition unregisterImpl (name : string) (rpc : Rpc) : Rpc :=
  {| _sendMessage := _sendMessage rpc;
     _implMap := delete name (_implMap rpc);
     _funcs := _funcs rpc; received := received rpc |}.

(** [this._implMap.set(name, ...)] for a function. *)
Definition set_func (name : string) (f : ExposedMethod) (rpc : Rpc) : Rpc :=
  {| _sendMessage := _sendMessage rpc; _implMap := _implMap rpc;
     _funcs := <[name := f]> (_funcs rpc); received := received rpc |}.

(** [registerFunc(name, f)], that is [registerImpl(name, {invoke: f})]:
    it fails like [registerImpl] when the name is in use, by an object or
    by a function. *)
Definition registerFunc (name : string) (f : ExposedMethod) (rpc : Rpc)
    : Outcome Rpc :=
  if in_use name rpc then Throw (already_registered name)
  else Return (set_func name f rpc).

(** [receiveMessage(msg)]: the hand-over of a message to the endpoint.
    Only the hand-over is recorded; what the endpoint then does with a
    call message, entering a registered implementation, is [call_impl]
    and [call_func] below. *)
Definition receiveMessage (msg : IMessage) (rpc : Rpc) : Rpc :=
  {| _sendMessage := _sendMessage rpc; _implMap := _implMap rpc;
     _funcs := _funcs rpc; received := received rpc ++ [msg] |}.

(** ** WidgetFrame *)

(** Callbacks registered with [onDispose]. *)
Inductive Disposer : Type :=
| stopListening                      (* registered by DisposableWithEvents *)
| detachTransport                    (* registered by the constructor *)
| unregister (name : string).        (* registered by exposeAPI *)

(** An event source attached with [useEvents(source, access)]. *)
Record Attached : Type := {
  source : Notifier;
  source_access : Checker;
  handler_on : bool        (* listenTo(source, 'event', handler) in force *)
}.

Record WidgetFrame : Type := {
  _options_url : string;
  _options_access : AccessLevel;
  _options_readonly : bool;
  _rpc : Rpc;
  _iframe : option Window;            (* contentWindow of the iframe built *)
  listener : bool;                    (* 'message' listener on the window *)
  _disposalList : list Disposer;      (* oldest first *)
  disposed : bool;
  ready_count : nat;                  (* occurrences of trigger('ready') *)
  _sources : list Attached;           (* listeners of 'ready', in order *)
  posted : list (Window * EventData)  (* notifications posted to the iframe *)
}.

Definition with_rpc (f : Rpc -> Rpc) (fr : WidgetFrame) : WidgetFrame :=
  {| _options_url := _options_url fr; _options_access := _options_access fr;
     _options_readonly := _options_readonly fr; _rpc := f (_rpc fr);
     _iframe := _iframe fr; listener := listener fr;
     _disposalList := _disposalList fr; disposed := disposed fr;
     ready_count := ready_count fr; _sources := _sources fr;
     posted := posted fr |}.

Definition with_sources (f : list Attached -> list Attached)
    (fr : WidgetFrame) : WidgetFrame :=
  {| _options_url := _options_url fr; _options_access := _options_access fr;
     _options_readonly := _options_readonly fr; _rpc := _rpc fr;
     _iframe := _iframe fr; listener := listener fr;
     _disposalList := _disposalList fr; disposed := disposed fr;
     ready_count := ready_count fr; _sources := f (_sources fr);
     posted := posted fr |}.

(** [this.onDispose(callback)]. *)
Definition onDispose (d : Disposer) (fr : WidgetFrame) : WidgetFrame :=
  {| _options_url := _options_url fr; _options_access := _options_access fr;
     _options_readonly := _options_readonly fr; _rpc := _rpc fr;
     _iframe := _iframe fr; listener := listener fr;
     _disposalList := _disposalList fr ++ [d]; disposed := disposed fr;
     ready_count := ready_count fr; _sources := _sources fr;
     posted := posted fr |}.

(** The options object is shared with whoever built the frame; this is an
    assignment to its [access] field after construction. *)
Definition set_access (level : AccessLevel) (fr : WidgetFrame) : WidgetFrame :=
  {| _options_url := _options_url fr; _options_access := level;
     _options_readonly := _options_readonly fr; _rpc := _rpc fr;
     _iframe := _iframe fr; listener := listener fr;
     _disposalList := _disposalList fr; disposed := disposed fr;
     ready_count := ready_count fr; _sources := _sources fr;
     posted := posted fr |}.

(** [interface WidgetFrameOptions]. *)
Record WidgetFrameOptions : Type := {
  url : string;
  access : option AccessLevel;
  readonly : bool;
  configure : option (WidgetFrame -> WidgetFrame)
}.

(** [constructor(_options)]. *)
Definition WidgetFrame_new (_options : WidgetFrameOptions) : WidgetFrame :=
  let fr :=
    {| _options_url := url _options;
       _options_access := access_or_none (access _options);
       _options_readonly := readonly _options;
       _rpc := setSendMessage postToIframe Rpc_new;
       _iframe := None;
       listener := true;
       _disposalList := [stopListening; detachTransport];
       disposed := false;
       ready_count := 0;
       _sources := [];
       posted := [] |} in
  match configure _options with
  | Some f => f fr
  | None => fr
  end.

(** [buildDom()]: from now on [_iframe] is the element just created. *)
Definition buildDom (contentWindow : Window) (fr : WidgetFrame) : WidgetFrame :=
  {| _options_url := _options_url fr; _options_access := _options_access fr;
     _options_readonly := _options_readonly fr; _rpc := _rpc fr;
     _iframe := Some contentWindow; listener := listener fr;
     _disposalList := _disposalList fr; disposed := disposed fr;
     ready_count := ready_count fr; _sources := _sources fr;
     posted := posted fr |}.

(** The frame after [exposeAPI(name, api, access)] has returned: the
    proxy is built around the value [this._options.access] has at this
    moment, stored under the name, and the cleanup is registered.  The
    call itself, which fails when the name is in use, is [exposeAPI_call]. *)
Definition exposeAPI {C : Type} `{AccessChecker C}
    (name : string) (api : Impl) (access : C) (fr : WidgetFrame)
    : WidgetFrame :=
  onDispose (unregister name)
    (with_rpc (set_impl name (wrapObject api access (_options_access fr)))
       fr).

(** [exposeAPI(name, api, access)]: when [registerImpl] throws, the
    failure leaves the method before [onDispose] and the frame is as it
    was. *)
Definition exposeAPI_call {C : Type} `{AccessChecker C}
    (name : string) (api : Impl) (access : C) (fr : WidgetFrame)
    : Outcome WidgetFrame :=
  match registerImpl name (wrapObject api access (_options_access fr))
          (_rpc fr) with
  | Return rpc => Return (onDispose (unregister name) (with_rpc (fun _ => rpc) fr))
  | Throw e => Throw e
  end.

(** The frame after [exposeMethod(name, handler, access)] has returned.
    The call itself is [exposeMethod_call]. *)
Definition exposeMethod {C : Type} `{AccessChecker C}
    (name : string) (handler : list JsValue -> Outcome JsValue) (access : C)
    (fr : WidgetFrame) : WidgetFrame :=
  with_rpc
    (set_func name
       {| handler := handler; method_access := checker_of access |})
    fr.

(** [exposeMethod(name, handler, access)]. *)
Definition exposeMethod_call {C : Type} `{AccessChecker C}
    (name : string) (handler : list JsValue -> Outcome JsValue) (access : C)
    (fr : WidgetFrame) : Outcome WidgetFrame :=
  match registerFunc name
          {| handler := handler; method_access := checker_of access |}
          (_rpc fr) with
  | Return rpc => Return (with_rpc (fun _ => rpc) fr)
  | Throw e => Throw e
  end.

(** [useEvents(source, access)]. *)
Definition useEvents {C : Type} `{AccessChecker C}
    (source : Notifier) (access : C) (fr : WidgetFrame) : WidgetFrame :=
  with_sources
    (fun l =>
       l ++ [{| source := source; source_access := checker_of access;
                handler_on := true |}])
    fr.

(** One cleanup action registered with [onDispose]. *)
Definition run_disposer (d : Disposer) (fr : WidgetFrame) : WidgetFrame :=
  match d with
  | stopListening =>
      with_sources
        (map (fun a => {| source := source a;
                          source_access := source_access a;
                          handler_on := false |}))
        fr
  | detachTransport =>
      {| _options_url := _options_url fr;
         _options_access := _options_access fr;
         _options_readonly := _options_readonly fr;
         _rpc := setSendMessage noop (_rpc fr);
         _iframe := _iframe fr; listener := false;
         _disposalList := _disposalList fr; disposed := disposed fr;
         ready_count := ready_count fr; _sources := _sources fr;
         posted := posted fr |}
  | unregister name => with_rpc (unregisterImpl name) fr
  end.

(** Modelled from the spec: [dispose], [onDispose] and [isDisposed] are
    inherited from [DisposableWithEvents] ([app/common]), which is not among
    the sources at hand.  The cleanup actions registered run exactly once,
    in reverse registration order, on dispose; a second call finds the
    object already disposed. *)
Definition dispose (fr : WidgetFrame) : WidgetFrame :=
  if disposed fr then fr
  else
    let fr' := foldr run_disposer fr (_disposalList fr) in
    {| _options_url := _options_url fr';
       _options_access := _options_access fr';
       _options_readonly := _options_readonly fr'; _rpc := _rpc fr';
       _iframe := _iframe fr'; listener := listener fr';
       _disposalList := []; disposed := true;
       ready_count := ready_count fr'; _sources := _sources fr';
       posted := posted fr' |}.

(** Modelled from the spec: [listenTo] and [trigger] are inherited from
    [DisposableWithEvents] ([app/common]), which is not among the sources
    at hand; it is a publish/subscribe channel, so
    [this.trigger('ready', this)] runs every listener of 'ready', here the
    [_ready] of each attached source. *)
Definition trigger_ready (fr : WidgetFrame) : WidgetFrame :=
  {| _options_url := _options_url fr; _options_access := _options_access fr;
     _options_readonly := _options_readonly fr; _rpc := _rpc fr;
     _iframe := _iframe fr; listener := listener fr;
     _disposalList := _disposalList fr; disposed := disposed fr;
     ready_count := S (ready_count fr);
     _sources :=
       map (fun a => {| source := on_ready (source a);
                        source_access := source_access a;
                        handler_on := handler_on a |})
         (_sources fr);
     posted := posted fr |}.

Record MessageEvent : Type := {
  event_source : Window;
  data : IMessage
}.

(** The message as [_onMessage] hands it on: destination "grist" wiped. *)
Definition wipe_grist (msg : IMessage) : IMessage :=
  if decide (mdest msg = Some "grist") then set_mdest (Some "") msg else msg.

(** [_onMessage(event)]. *)
Definition _onMessage (event : MessageEvent) (fr : WidgetFrame) : WidgetFrame :=
  match _iframe fr with
  | Some contentWindow =>
      if bool_decide (event_source event = contentWindow) && negb (disposed fr)
      then
        let msg := wipe_grist (data event) in
        let fr' :=
          if decide (mtype msg = Ready) then trigger_ready fr else fr in
        with_rpc (receiveMessage msg) fr'
      else fr
  | None => fr
  end.

(** A 'message' event on the window reaches [_onMessage] as long as the
    listener is installed. *)
Definition window_message (event : MessageEvent) (fr : WidgetFrame)
    : WidgetFrame :=
  if listener fr then _onMessage event fr else fr.

(** [handler(...args)], observed under the name it is registered as. *)
Definition call_handler (name : string)
    (handler : list JsValue -> Outcome JsValue) (arguments : list JsValue)
    : Eff JsValue := fun log =>
  (handler arguments,
   {| checked := checked log;
      invoked := invoked log ++ [(name, arguments)] |}).

(** A call of the function registered as [name], which the endpoint
    performs as a call of the member [invoke] of what is registered under
    the name: the closure built by [exposeMethod], or the member [invoke]
    of an object registered by [exposeAPI]. *)
Definition call_func (name : string) (arguments : list JsValue)
    (fr : WidgetFrame) : Eff JsValue :=
  match _funcs (_rpc fr) !! name with
  | Some f =>
      ok ← run_check (method_access f) (_options_access fr) (Some "invoke");
      if ok : bool then call_handler name (handler f) arguments
      else throwError (_options_access fr)
  | None =>
      match _implMap (_rpc fr) !! name with
      | Some w => proxy_get w "invoke" arguments
      | None => throw (Error "Unknown function")
      end
  end.

(** A call of [meth] on the implementation registered as [name], as the
    endpoint performs it: [impl[meth](...args)] on the registered object.
    Under a name that holds a function, the only member is [invoke]. *)
Definition call_impl (name methodName : string) (arguments : list JsValue)
    (fr : WidgetFrame) : Eff JsValue :=
  match _implMap (_rpc fr) !! name with
  | Some w => proxy_get w methodName arguments
  | None =>
      match _funcs (_rpc fr) !! name with
      | Some f =>
          if String.eqb methodName "invoke" then call_func name arguments fr
          else throw (Error "Unknown method")
      | None => throw (Error "Unknown interface")
      end
  end.

(** [this._rpc.postMessage(data)]: goes through the installed sender. *)
Definition postMessage (data : EventData) (fr : WidgetFrame) : WidgetFrame :=
  match _sendMessage (_rpc fr), _iframe fr with
  | postToIframe, Some contentWindow =>
      {| _options_url := _options_url fr;
         _options_access := _options_access fr;
         _options_readonly := _options_readonly fr; _rpc := _rpc fr;
         _iframe := _iframe fr; listener := listener fr;
         _disposalList := _disposalList fr; disposed := disposed fr;
         ready_count := ready_count fr; _sources := _sources fr;
         posted := posted fr ++ [(contentWindow, data)] |}
  | _, _ => fr
  end.

(** The handler installed by [useEvents] for the source [a]. *)
Definition on_event (a : Attached) (data : EventData) (fr : WidgetFrame)
    : WidgetFrame :=
  if handler_on a then
    match source_access a (_options_access fr) None with
    | Return true => postMessage data fr
    | _ => fr
    end
  else fr.

(** What an armed timer of [n] will hand to [trigger('event', ...)]. *)
Definition fired (h : Host) (n : Notifier) : option EventData :=
  if pending n && negb (isDisposed n) then Some (state h n) else None.

(** A host mutation, seen by every attached source. *)
Definition frame_notice (m : Mutation) (fr : WidgetFrame) : WidgetFrame :=
  with_sources
    (map (fun a => {| source := notice m (source a);
                      source_access := source_access a;
                      handler_on := handler_on a |}))
    fr.

(** End of a scheduling turn for the frame and its sources: the timers
    fire in order, and each event raised goes through [on_event]. *)
Definition end_of_turn (h : Host) (fr : WidgetFrame) : WidgetFrame :=
  let raised :=
    omap (fun a => option_map (pair a) (fired h (source a))) (_sources fr) in
  let fr' :=
    with_sources
      (map (fun a => {| source := fire h (source a);
                        source_access := source_access a;
                        handler_on := handler_on a |}))
      fr in
  foldl (fun acc ad => on_event (fst ad) (snd ad) acc) fr' raised.

(** ** Notions used to state the properties *)

(** The rule a method table resolves for a method name: the entry under the
    exact name if there is one, else the entry under the wildcard, else
    none (implicit deny). *)
Definition resolved_rule (T : MethodAccess) (m : string) : option AccessLevel :=
  match _accessMap T !! m with
  | Some minimum => Some minimum
  | None => _accessMap T !! "*"
  end.

(** The resolved rule for [m] has a minimum at or below [L]. *)
Definition permits (T : MethodAccess) (L : AccessLevel) (m : string) : Prop :=
  ∃ minimum, resolved_rule T m = Some minimum ∧ ordered minimum ≤ ordered L.

(** The full state a notifier has to report, read from the host. *)
Definition current_state (h : Host) (n : Notifier) : EventData :=
  match class n with
  | RecordNotifier =>
      CursorState (tableId h) (or_undefined (cursor_rowId h)) false
  | ConfigNotifier level _ => ConfigState (activeCustomOptions h) level
  | TableNotifier =>
      CursorState (tableId h) (or_undefined (cursor_rowId h)) true
  end.

(** [m] mutates the state that [n] observes: it goes through one of the
    observables [n] subscribed to and, for the stored options, the new
    value differs from the one held so far. *)
Definition stirs (n : Notifier) (m : Mutation) : bool :=
  match class n, m with
  | RecordNotifier, moveCursor _ => true
  | TableNotifier, setViewFields _ => true
  | TableNotifier, rowNotify => true
  | TableNotifier, setSortedRows _ => true
  | ConfigNotifier _ prev, setOptions cur => bool_decide (prev ≠ cur)
  | _, _ => false
  end.

(** Every mutation of the list is a mutation of what [n] observes, each
    taken in the state the previous ones left. *)
Fixpoint all_stir (ms : list Mutation) (n : Notifier) : bool :=
  match ms with
  | [] => true
  | m :: ms' => stirs n m && all_stir ms' (notice m n)
  end.

(** What [n] would emit now is the state of the host: the configuration
    it caches agrees with the stored options. *)
Definition in_sync (h : Host) (n : Notifier) : Prop :=
  state h n = current_state h n.

(** Two messages that grain-rpc cannot tell apart: the same fields, and
    destinations that are both unset or equal. *)
Definition same_to_rpc (m1 m2 : IMessage) : Prop :=
  mtype m1 = mtype m2 ∧ iface m1 = iface m2 ∧ meth m1 = meth m2
  ∧ args m1 = args m2 ∧ route m1 = route m2.

(** ** Sample objects *)

(** An object with the four methods of [GristDocAPIImpl]. *)
Definition GristDocAPI_sample : Impl := fun name =>
  if bool_decide (name ∈ ["getDocName"; "listTables"; "fetchTable";
                          "applyUserActions"])
  then Some (fun _ => Return (JsString name))
  else None.

Definition sample_options (level : option AccessLevel) : WidgetFrameOptions :=
  {| url := "https://example.com/widget"; access := level;
     readonly := false; configure := None |}.

Definition sample_host : Host :=
  {| tableId := "Table1"; cursor_rowId := Some 2%Z;
     viewFields := ["A"; "B"]; sortedRows := [1; 2; 3]%Z;
     activeCustomOptions := None |}.

Definition ready_message : IMessage :=
  {| mtype := Ready; mdest := None; iface := None; meth := ""; args := [] |}.

Definition call_message (dest : option string) : IMessage :=
  {| mtype := RpcCall; mdest := dest; iface := Some "GristDocAPI";
     meth := "getDocName"; args := [] |}.


(** A frame that exposes the sample document API under [T]. *)
Definition docapi_frame (T : MethodAccess) (level : option AccessLevel)
    : WidgetFrame :=
  exposeAPI "GristDocAPI" GristDocAPI_sample T
    (WidgetFrame_new (sample_options level)).

(** Example 1 of the [MethodAccess] documentation: one method exposed, all
    others denied. *)
Definition getDocName_only : MethodAccess :=
  require read_table (Some "getDocName") MethodAccess_new.

(** The inbound events of a session, delivered in order. *)
Definition deliver_all (events : list MessageEvent) (fr : WidgetFrame)
    : WidgetFrame :=
  foldl (fun acc event => window_message event acc) fr events.

(** A frame built from the sample options whose iframe exists. *)
Definition attached_frame (w : Window) : WidgetFrame :=
  buildDom w (WidgetFrame_new (sample_options (Some full))).

Definition from_window (w : Window) (msg : IMessage) : MessageEvent :=
  {| event_source := w; data := msg |}.

(** The catch-up scenario: a source is attached to a new frame, the iframe
    is built, the widget's ready message arrives, and the turn ends. *)
Definition ready_session {C : Type} `{AccessChecker C}
    (n : Notifier) (checker : C) (level : option AccessLevel) (w : Window)
    (h : Host) : WidgetFrame :=
  end_of_turn h
    (window_message (from_window w ready_message)
       (buildDom w
          (useEvents n checker (WidgetFrame_new (sample_options level))))).

(** ** WidgetAPIImpl *)

(** A JavaScript object as far as the options need it: its own
    properties, and whether its prototype is [Object.prototype] ([plain])
    or it has none. *)
Record JsObject : Type := {
  own : gmap string JsValue;
  plain : bool
}.

#[global] Instance JsObject_eq_dec : EqDecision JsObject.
Proof. solve_decision. Defined.

(** The string-keyed members an object inherits from [Object.prototype]. *)
Definition Object_prototype : list string :=
  ["constructor"; "hasOwnProperty"; "isPrototypeOf"; "propertyIsEnumerable";
   "toLocaleString"; "toString"; "valueOf"; "__defineGetter__";
   "__defineSetter__"; "__lookupGetter__"; "__lookupSetter__"; "__proto__"].

(** What reading a member gives: a value, or the built-in member of that
    name (a function; for [__proto__], the prototype itself). *)
Inductive JsRead : Type :=
| Data (v : JsValue)
| Builtin (member : string).

#[global] Instance JsRead_eq_dec : EqDecision JsRead.
Proof. solve_decision. Defined.

(** [o[key]]: an own property first, then the prototype. *)
Definition get_member (o : JsObject) (key : string) : JsRead :=
  match own o !! key with
  | Some v => Data v
  | None =>
      if plain o && bool_decide (key ∈ Object_prototype) then Builtin key
      else Data JsUndefined
  end.

(** [o[key] = value].  The assignment creates or overwrites an own
    property, except for [__proto__] on a plain object that has no own
    property of that name: there the inherited setter runs, which drops
    the prototype when the value is [null] and ignores the other values
    of [JsValue]. *)
Definition set_member (key : string) (value : JsValue) (o : JsObject)
    : JsObject :=
  if String.eqb key "__proto__" && bool_decide (own o !! key = None)
     && plain o
  then
    match value with
    | JsNull => {| own := own o; plain := false |}
    | _ => o
    end
  else {| own := <[key := value]> (own o); plain := plain o |}.

(** [{...options}]: a new plain object with the own properties of
    [options]; of none when [options] is [null]. *)
Definition spread (options : option JsObject) : JsObject :=
  {| own := match options with Some o => own o | None => ∅ end;
     plain := true |}.

(** The value of [activeCustomOptions] as an object: [null], or the object
    stored. *)
Definition StoredOptions : Type := option JsObject.

(** The stored options as the notifiers and the widget see them, through
    their own properties: the [activeCustomOptions] of [Host]. *)
Definition own_properties (stored : StoredOptions) : CustomOptions :=
  own <$> stored.



(** [getOptions()]: [activeCustomOptions.peek() ?? null]. *)
Definition WidgetAPIImpl_getOptions (stored : StoredOptions) : StoredOptions :=
  stored.


(** [setOption(key, value)]: a copy of the stored options with [key]
    assigned is stored. *)
Definition WidgetAPIImpl_setOption (key : string) (value : JsValue)
    (stored : StoredOptions) : StoredOptions :=
  Some (set_member key value (spread stored)).

(** [getOption(key)]: [options?.[key]]. *)
Definition WidgetAPIImpl_getOption (key : string) (stored : StoredOptions)
    : JsRead :=
  match stored with
  | Some o => get_member o key
  | None => Data JsUndefined
  end.

(** ** CustomSectionAPIImpl *)

(** [InteractionOptionsRequest], the two fields [configure] reads. *)
Record InteractionOptionsRequest : Type := {
  req_hasCustomOptions : option bool;
  requiredAccess : option string
}.

(** The section flag [configure] writes and the calls of
    [_promptCallback] it makes, oldest first. *)
Record CustomSection : Type := {
  hasCustomOptions : bool;
  prompted : list string
}.

(** [configure(settings)] for an object built with [_currentAccess]. *)
Definition CustomSectionAPIImpl_configure (_currentAccess : AccessLevel)
    (settings : InteractionOptionsRequest) (sec : CustomSection)
    : CustomSection :=
  let flag :=
    match req_hasCustomOptions settings with
    | Some b => b
    | None => hasCustomOptions sec
    end in
  match requiredAccess settings with
  | Some wanted =>
      if truthy (Some wanted)
         && negb (String.eqb wanted (AccessLevel_token _currentAccess))
      then {| hasCustomOptions := flag; prompted := prompted sec ++ [wanted] |}
      else {| hasCustomOptions := flag; prompted := prompted sec |}
  | None => {| hasCustomOptions := flag; prompted := prompted sec |}
  end.

(** ** GristViewImpl *)

(** A view field: the column it shows ([field.column().colId()]), the
    column its values are read from ([field.displayColModel().colId()],
    different for reference columns) and the type of the column. *)
Record ViewFieldRec : Type := {
  field_colId : string;
  field_displayColId : string;
  field_type : string
}.

Section GristView.
(** Cell values, and the collaborators of [GristViewImpl] that live in
    [app/common]: the two readers of [TableData] and the re-encoding of
    a cell for the widget. *)
Variable Cell : Type.
Variable TypeInfo : Type.
Variable number : Z → Cell.                         (* a row id as a cell *)
Variable getRowPropFunc : string → option (Z → Cell). (* undefined: no column *)
Variable getValue : Z → string → Cell.
Variable extractInfoFromColType : string → TypeInfo.
Variable reencodeAsAny : Cell → TypeInfo → Cell.

(** [rowIds.map(r => reencodeAsAny(getter(r)!, typeInfo))]: the getter
    is only called when there is a row. *)
Definition column_values (field : ViewFieldRec) (rowIds : list Z)
    : Outcome (list Cell) :=
  match rowIds with
  | [] => Return []
  | _ :: _ =>
      match getRowPropFunc (field_displayColId field) with
      | Some getter =>
          Return
            (map (fun r =>
                    reencodeAsAny (getter r)
                      (extractInfoFromColType (field_type field)))
               rowIds)
      | None => Throw (TypeError "getter is not a function")
      end
  end.

(** The loop over the fields in [fetchSelectedTable]. *)
Fixpoint table_columns (fields : list ViewFieldRec) (rowIds : list Z)
    (data : gmap string (list Cell)) : Outcome (gmap string (list Cell)) :=
  match fields with
  | [] => Return data
  | field :: rest =>
      match column_values field rowIds with
      | Return column =>
          table_columns rest rowIds (<[field_colId field := column]> data)
      | Throw e => Throw e
      end
  end.

(** [fetchSelectedTable()]. *)
Definition fetchSelectedTable (fields : list ViewFieldRec)
    (rowIds : list Z) : Outcome (gmap string (list Cell)) :=
  match table_columns fields rowIds ∅ with
  | Return data => Return (<["id" := map number rowIds]> data)
  | Throw e => Throw e
  end.

(** The loop over the fields in [fetchSelectedRecord]. *)
Fixpoint record_fields (fields : list ViewFieldRec) (rowId : Z)
    (data : gmap string Cell) : gmap string Cell :=
  match fields with
  | [] => data
  | field :: rest =>
      record_fields rest rowId
        (<[field_colId field :=
             reencodeAsAny (getValue rowId (field_displayColId field))
               (extractInfoFromColType (field_type field))]> data)
  end.

(** [fetchSelectedRecord(rowId)]. *)
Definition fetchSelectedRecord (fields : list ViewFieldRec) (rowId : Z)
    : gmap string Cell :=
  record_fields fields rowId {["id" := number rowId]}.
End GristView.

(** No mutation of the list is one that [n] observes. *)
Fixpoint none_stir (ms : list Mutation) (n : Notifier) : bool :=
  match ms with
  | [] => true
  | m :: ms' => negb (stirs n m) && none_stir ms' (notice m n)
  end.

(** A small table: two rows, columns [Name] and [Age]. *)
Definition sample_cell (r : Z) (colId : string) : JsValue :=
  if String.eqb colId "Name" then JsString (if (r =? 1)%Z then "Ann" else "Bob")
  else if String.eqb colId "Age" then JsNumber (r * 10)
  else JsUndefined.

Definition sample_getRowPropFunc (colId : string) : option (Z → JsValue) :=
  if bool_decide (colId ∈ ["Name"; "Age"])
  then Some (fun r => sample_cell r colId)
  else None.

Definition sample_fields : list ViewFieldRec :=
  [{| field_colId := "Name"; field_displayColId := "Name";
      field_type := "Text" |};
   {| field_colId := "Age"; field_displayColId := "Age";
      field_type := "Int" |}].

(** What the widget gets for the sample table with rows 1 and 2. *)
Definition sample_table_data : gmap string (list JsValue) :=
  <["id" := [JsNumber 1; JsNumber 2]]>
    (<["Age" := [JsNumber 10; JsNumber 20]]>
       (<["Name" := [JsString "Ann"; JsString "Bob"]]> ∅)).

(** A reference field whose display column the table data lacks. *)
Definition sample_reference_field : ViewFieldRec :=
  {| field_colId := "Owner"; field_displayColId := "gristHelper_Display";
     field_type := "Ref:People" |}.

(** * Properties *)

(** ** Method tables *)

Lemma isSatisfied_le (current minimum : AccessLevel) :
  isSatisfied current minimum = true ↔ ordered minimum ≤ ordered current.
Proof. unfold isSatisfied. apply Nat.leb_le. Qed.

Lemma truthy_nonempty (m : string) : m ≠ "" → truthy (Some m) = true.
Proof.
  intros Hm. unfold truthy. destruct (String.eqb_spec m ""); [done | reflexivity].
Qed.

(** With a usable method name, [check] returns the verdict of the resolved
    rule. *)
Lemma MethodAccess_check_eq (T : MethodAccess) (L : AccessLevel) (m : string) :
  m ≠ "" →
  check T L (Some m) =
    Return (match resolved_rule T m with
            | Some minimum => isSatisfied L minimum
            | None => false
            end).
Proof.
  intros Hm. unfold check, MethodAccess_check, resolved_rule.
  rewrite (truthy_nonempty m Hm).
  destruct (_accessMap T !! m); [reflexivity |].
  destruct (_accessMap T !! "*"); reflexivity.
Qed.

(** C1 (as amended).  For every level [L], table [T] and non-empty method
    name [m], [check] returns a boolean, and it is [true] exactly when the
    rule resolved for [m] (exact entry, else wildcard entry, else implicit
    deny) has a minimum at or below [L]; a table without entries returns
    [false].  An absent or empty method name makes [check] throw. *)
Theorem MethodAccess_check_resolved
    (T : MethodAccess) (L : AccessLevel) (m : string) :
  m ≠ "" →
  (∃ b, check T L (Some m) = Return b ∧ (b = true ↔ permits T L m))
  ∧ (_accessMap T = ∅ → check T L (Some m) = Return false)
  ∧ check T L None
    = Throw (Error "Method name is required for MethodAccess check")
  ∧ check T L (Some "")
    = Throw (Error "Method name is required for MethodAccess check").
Proof.
  intros Hm. split; [| split; [| split; reflexivity]].
  - rewrite (MethodAccess_check_eq T L m Hm). unfold permits.
    destruct (resolved_rule T m) as [minimum |].
    + eexists. split; [reflexivity |]. rewrite isSatisfied_le. split.
      * intros Hle. exists minimum. done.
      * intros (minimum' & Heq & Hle). congruence.
    + exists false. split; [reflexivity |]. split; [done |].
      intros (minimum & Heq & _). discriminate.
  - intros Hempty. rewrite (MethodAccess_check_eq T L m Hm).
    unfold resolved_rule. rewrite Hempty, !lookup_empty. reflexivity.
Qed.

Lemma MethodAccess_check_resolved_witness :
  (∃ b, check GristDocAPIImpl_defaultAccess read_table (Some "getDocName")
        = Return b
        ∧ (b = true
           ↔ permits GristDocAPIImpl_defaultAccess read_table "getDocName"))
  ∧ (_accessMap GristDocAPIImpl_defaultAccess = ∅ →
     check GristDocAPIImpl_defaultAccess read_table (Some "getDocName")
     = Return false)
  ∧ check GristDocAPIImpl_defaultAccess read_table None
    = Throw (Error "Method name is required for MethodAccess check")
  ∧ check GristDocAPIImpl_defaultAccess read_table (Some "")
    = Throw (Error "Method name is required for MethodAccess check").
Proof.
  apply (MethodAccess_check_resolved GristDocAPIImpl_defaultAccess read_table
           "getDocName").
  discriminate.
Defined.

(** The wildcard-only table of level [none] resolves a rule for the empty
    name that every level satisfies, and the empty table should deny it;
    in both cases [check] throws instead of returning. *)
Lemma MethodAccess_check_empty_name :
  permits (require none None MethodAccess_new) full ""
  ∧ check (require none None MethodAccess_new) full (Some "") ≠ Return true
  ∧ check MethodAccess_new full (Some "") ≠ Return false.
Proof.
  split; [| split; discriminate].
  exists none. split; [| simpl; lia].
  unfold resolved_rule, require, MethodAccess_new. simpl.
  rewrite lookup_insert_ne by discriminate.
  rewrite lookup_empty. apply lookup_insert_eq.
Qed.

(** ** The access gate *)

Lemma prefix_refl (s : string) : String.prefix s s = true.
Proof.
  induction s as [| c s IH]; [reflexivity |].
  simpl. destruct (Ascii.ascii_dec c c); [exact IH | done].
Qed.

Lemma contains_refl (s : string) : contains s s = true.
Proof.
  destruct s as [| c s]; [reflexivity |].
  change (String.prefix (String c s) (String c s)
          || contains (String c s) s = true).
  rewrite prefix_refl. reflexivity.
Qed.

Lemma contains_append (s p : string) : contains s (p +:+ s) = true.
Proof.
  induction p as [| c p IH]; simpl.
  - apply contains_refl.
  - rewrite IH. apply orb_true_r.
Qed.

(** The failure raised by the gate spells out the level it was given. *)
Lemma access_denied_carries_level (access : AccessLevel) :
  contains (AccessLevel_token access) (message (access_denied access)) = true.
Proof. apply contains_append. Qed.

(** The gate, for a method other than [then]: one evaluation of the
    checker, then either the call or the failure. *)
Lemma proxy_get_gated (w : Wrapped) (methodName : string)
    (arguments : list JsValue) (log : CallLog) :
  methodName ≠ "then" →
  proxy_get w methodName arguments log =
    let log' := {| checked := checked log
                                ++ [(wrapped_access w, Some methodName)];
                   invoked := invoked log |} in
    match accessChecker w (wrapped_access w) (Some methodName) with
    | Return true => call_method (impl w) methodName arguments log'
    | Return false => (Throw (access_denied (wrapped_access w)), log')
    | Throw e => (Throw e, log')
    end.
Proof.
  intros Hthen. unfold proxy_get.
  destruct (String.eqb_spec methodName "then") as [-> | _]; [done |].
  unfold mbind, Eff_bind, run_check. simpl.
  destruct (accessChecker w (wrapped_access w) (Some methodName)) as [[|] | e];
    reflexivity.
Qed.

(** C2 (as amended).  For every wrapped object, every method name other
    than [then] and every argument list, if the access checker returns
    false then no method of the implementation is entered and the call
    throws the access-denied failure, whose message carries the granted
    level the wrapper was built with.  The method name is not part of the
    failure. *)
Theorem wrapObject_denied
    {C : Type} `{AccessChecker C} (api : Impl) (checker : C)
    (access : AccessLevel) (methodName : string) (arguments : list JsValue)
    (log : CallLog) :
  methodName ≠ "then" →
  check checker access (Some methodName) = Return false →
  fst (proxy_get (wrapObject api checker access) methodName arguments log)
    = Throw (access_denied access)
  ∧ invoked (snd (proxy_get (wrapObject api checker access) methodName
                    arguments log))
    = invoked log
  ∧ contains (AccessLevel_token access) (message (access_denied access))
    = true.
Proof.
  intros Hthen Hdenied.
  rewrite (proxy_get_gated _ _ _ _ Hthen). simpl.
  unfold checker_of. rewrite Hdenied. simpl.
  split; [reflexivity |]. split; [reflexivity |].
  apply access_denied_carries_level.
Qed.

Lemma wrapObject_denied_witness :
  fst (proxy_get (wrapObject GristDocAPI_sample GristDocAPIImpl_defaultAccess
                    read_table) "fetchTable" [] CallLog_empty)
    = Throw (access_denied read_table)
  ∧ invoked (snd (proxy_get (wrapObject GristDocAPI_sample
                               GristDocAPIImpl_defaultAccess read_table)
                    "fetchTable" [] CallLog_empty))
    = invoked CallLog_empty
  ∧ contains (AccessLevel_token read_table)
      (message (access_denied read_table))
    = true.
Proof.
  apply (wrapObject_denied GristDocAPI_sample GristDocAPIImpl_defaultAccess
           read_table "fetchTable" [] CallLog_empty).
  - discriminate.
  - reflexivity.
Defined.

(** A denied call of [fetchTable]: the failure does not name the method,
    and it is the very failure a denied call of [listTables] raises.  A
    denied call of [then] raises nothing. *)
Lemma wrapObject_denied_no_method_name :
  check MethodAccess_new none (Some "fetchTable") = Return false
  ∧ fst (proxy_get (wrapObject GristDocAPI_sample MethodAccess_new none)
           "fetchTable" [] CallLog_empty)
    = Throw (access_denied none)
  ∧ contains "fetchTable" (message (access_denied none)) = false
  ∧ fst (proxy_get (wrapObject GristDocAPI_sample MethodAccess_new none)
           "listTables" [] CallLog_empty)
    = Throw (access_denied none)
  ∧ check MethodAccess_new none (Some "then") = Return false
  ∧ fst (proxy_get (wrapObject GristDocAPI_sample MethodAccess_new none)
           "then" [] CallLog_empty)
    = Return JsUndefined.
Proof. repeat split; reflexivity. Qed.

(** C9.  For every wrapped object and every granted level, reading the
    member [then] of the wrapper and calling it, with any arguments,
    returns [undefined]: it does not throw, the access checker is not
    evaluated and no method of the implementation is entered. *)
Theorem wrapObject_then_probe
    {C : Type} `{AccessChecker C} (api : Impl) (checker : C)
    (access : AccessLevel) (arguments : list JsValue) (log : CallLog) :
  proxy_get (wrapObject api checker access) "then" arguments log
  = (Return JsUndefined, log).
Proof. reflexivity. Qed.

(** ** Registration and the granted level *)

(** The closure built by [exposeMethod]: one evaluation of the checker
    against the level the frame holds when the call arrives. *)
Lemma call_func_gated (name : string) (f : ExposedMethod)
    (arguments : list JsValue) (fr : WidgetFrame) (log : CallLog) :
  _funcs (_rpc fr) !! name = Some f →
  call_func name arguments fr log =
    let log' := {| checked := checked log
                                ++ [(_options_access fr, Some "invoke")];
                   invoked := invoked log |} in
    match method_access f (_options_access fr) (Some "invoke") with
    | Return true => call_handler name (handler f) arguments log'
    | Return false => (Throw (access_denied (_options_access fr)), log')
    | Throw e => (Throw e, log')
    end.
Proof.
  intros Hf. unfold call_func. rewrite Hf.
  unfold mbind, Eff_bind, run_check. simpl.
  destruct (method_access f (_options_access fr) (Some "invoke"))
    as [[|] | e]; reflexivity.
Qed.

Lemma exposeMethod_lookup {C : Type} `{AccessChecker C} (name : string)
    (h : list JsValue → Outcome JsValue) (checker : C) (fr : WidgetFrame) :
  _funcs (_rpc (exposeMethod name h checker fr)) !! name
  = Some {| handler := h; method_access := checker_of checker |}.
Proof. simpl. apply lookup_insert_eq. Qed.

Lemma exposeAPI_lookup {C : Type} `{AccessChecker C} (name : string)
    (api : Impl) (checker : C) (fr : WidgetFrame) :
  _implMap (_rpc (exposeAPI name api checker fr)) !! name
  = Some (wrapObject api checker (_options_access fr)).
Proof. simpl. apply lookup_insert_eq. Qed.

Lemma call_impl_exposeAPI {C : Type} `{AccessChecker C} (name m : string)
    (api : Impl) (checker : C) (fr : WidgetFrame)
    (arguments : list JsValue) (log : CallLog) :
  call_impl name m arguments (exposeAPI name api checker fr) log
  = proxy_get (wrapObject api checker (_options_access fr)) m arguments log.
Proof. unfold call_impl. rewrite exposeAPI_lookup. reflexivity. Qed.

(** Level [full] satisfies every minimum. *)
Lemma isSatisfied_full (minimum : AccessLevel) : isSatisfied full minimum = true.
Proof. destruct minimum; reflexivity. Qed.

Lemma MethodAccess_check_full (T : MethodAccess) (m : string) :
  m ≠ "" → is_Some (resolved_rule T m) → check T full (Some m) = Return true.
Proof.
  intros Hm [minimum Hrule]. rewrite (MethodAccess_check_eq T full m Hm).
  rewrite Hrule, isSatisfied_full. reflexivity.
Qed.

Lemma MethodAccess_check_no_rule (T : MethodAccess) (L : AccessLevel)
    (m : string) :
  m ≠ "" → resolved_rule T m = None → check T L (Some m) = Return false.
Proof.
  intros Hm Hnone. rewrite (MethodAccess_check_eq T L m Hm).
  rewrite Hnone. reflexivity.
Qed.

Lemma exposeAPI_call_free {C : Type} `{AccessChecker C} (name : string)
    (api : Impl) (checker : C) (fr : WidgetFrame) :
  in_use name (_rpc fr) = false →
  exposeAPI_call name api checker fr
  = Return (exposeAPI name api checker fr).
Proof.
  intros Hfree. unfold exposeAPI_call, registerImpl. rewrite Hfree.
  reflexivity.
Qed.

Lemma exposeMethod_call_free {C : Type} `{AccessChecker C} (name : string)
    (h : list JsValue → Outcome JsValue) (checker : C) (fr : WidgetFrame) :
  in_use name (_rpc fr) = false →
  exposeMethod_call name h checker fr
  = Return (exposeMethod name h checker fr).
Proof.
  intros Hfree. unfold exposeMethod_call, registerFunc. rewrite Hfree.
  reflexivity.
Qed.

(** C3 (as amended).  Take a method-access table [T], a method name [m]
    other than the empty name and [then], and a name not yet in use on
    the bridge.  If [T] resolves a rule for [m], [T] permits [m] at level
    [full]; if it resolves none, [T] denies [m] at every level.  An
    implementation registered with [exposeAPI] once the level is [full]
    is called through for [m] when [T] resolves a rule for it, and at
    whatever level it is registered the call is denied when [T] resolves
    none.  A handler registered with [exposeMethod] while the level was
    [none] is called through once the level is [full], without being
    registered again, provided [T] resolves a rule for [invoke]. *)
Theorem raised_to_full_permits
    (T : MethodAccess) (fr : WidgetFrame) (name m : string) (api : Impl)
    (h : list JsValue → Outcome JsValue) (arguments : list JsValue)
    (log : CallLog) :
  m ≠ "" → m ≠ "then" → in_use name (_rpc fr) = false →
  (is_Some (resolved_rule T m) → check T full (Some m) = Return true)
  ∧ (resolved_rule T m = None → ∀ L, check T L (Some m) = Return false)
  ∧ exposeAPI_call name api T (set_access full fr)
    = Return (exposeAPI name api T (set_access full fr))
  ∧ (is_Some (resolved_rule T m) →
     call_impl name m arguments (exposeAPI name api T (set_access full fr))
       log
     = call_method api m arguments
         {| checked := checked log ++ [(full, Some m)];
            invoked := invoked log |})
  ∧ (resolved_rule T m = None →
     ∀ L,
       call_impl name m arguments (exposeAPI name api T (set_access L fr)) log
       = (Throw (access_denied L),
          {| checked := checked log ++ [(L, Some m)];
             invoked := invoked log |}))
  ∧ exposeMethod_call name h T (set_access none fr)
    = Return (exposeMethod name h T (set_access none fr))
  ∧ (is_Some (resolved_rule T "invoke") →
     call_func name arguments
       (set_access full (exposeMethod name h T (set_access none fr))) log
     = call_handler name h arguments
         {| checked := checked log ++ [(full, Some "invoke")];
            invoked := invoked log |}).
Proof.
  intros Hm Hthen Hfree. repeat split.
  - apply MethodAccess_check_full, Hm.
  - intros Hnone L. apply MethodAccess_check_no_rule; assumption.
  - apply exposeAPI_call_free. exact Hfree.
  - intros Hrule. rewrite call_impl_exposeAPI.
    rewrite (proxy_get_gated _ _ _ _ Hthen). simpl. unfold checker_of.
    rewrite (MethodAccess_check_full T m Hm Hrule). reflexivity.
  - intros Hnone L. rewrite call_impl_exposeAPI.
    rewrite (proxy_get_gated _ _ _ _ Hthen). simpl. unfold checker_of.
    rewrite (MethodAccess_check_no_rule T L m Hm Hnone). reflexivity.
  - apply exposeMethod_call_free. exact Hfree.
  - intros Hinvoke.
    rewrite (call_func_gated name
               {| handler := h; method_access := checker_of T |}).
    + simpl. unfold checker_of.
      rewrite (MethodAccess_check_full T "invoke") by done. reflexivity.
    + simpl. apply lookup_insert_eq.
Qed.

Lemma raised_to_full_permits_witness :
  (is_Some (resolved_rule GristDocAPIImpl_defaultAccess "fetchTable") →
   check GristDocAPIImpl_defaultAccess full (Some "fetchTable") = Return true)
  ∧ (resolved_rule GristDocAPIImpl_defaultAccess "fetchTable" = None →
     ∀ L, check GristDocAPIImpl_defaultAccess L (Some "fetchTable")
          = Return false)
  ∧ exposeAPI_call "GristDocAPI" GristDocAPI_sample
      GristDocAPIImpl_defaultAccess
      (set_access full (WidgetFrame_new (sample_options None)))
    = Return
        (exposeAPI "GristDocAPI" GristDocAPI_sample
           GristDocAPIImpl_defaultAccess
           (set_access full (WidgetFrame_new (sample_options None))))
  ∧ (is_Some (resolved_rule GristDocAPIImpl_defaultAccess "fetchTable") →
     call_impl "GristDocAPI" "fetchTable" [JsString "Table1"]
       (exposeAPI "GristDocAPI" GristDocAPI_sample
          GristDocAPIImpl_defaultAccess
          (set_access full (WidgetFrame_new (sample_options None))))
       CallLog_empty
     = call_method GristDocAPI_sample "fetchTable" [JsString "Table1"]
         {| checked := checked CallLog_empty ++ [(full, Some "fetchTable")];
            invoked := invoked CallLog_empty |})
  ∧ (resolved_rule GristDocAPIImpl_defaultAccess "fetchTable" = None →
     ∀ L,
       call_impl "GristDocAPI" "fetchTable" [JsString "Table1"]
         (exposeAPI "GristDocAPI" GristDocAPI_sample
            GristDocAPIImpl_defaultAccess
            (set_access L (WidgetFrame_new (sample_options None))))
         CallLog_empty
       = (Throw (access_denied L),
          {| checked := checked CallLog_empty ++ [(L, Some "fetchTable")];
             invoked := invoked CallLog_empty |}))
  ∧ exposeMethod_call "GristDocAPI" (fun _ => Return JsNull)
      GristDocAPIImpl_defaultAccess
      (set_access none (WidgetFrame_new (sample_options None)))
    = Return
        (exposeMethod "GristDocAPI" (fun _ => Return JsNull)
           GristDocAPIImpl_defaultAccess
           (set_access none (WidgetFrame_new (sample_options None))))
  ∧ (is_Some (resolved_rule GristDocAPIImpl_defaultAccess "invoke") →
     call_func "GristDocAPI" [JsString "Table1"]
       (set_access full
          (exposeMethod "GristDocAPI" (fun _ => Return JsNull)
             GristDocAPIImpl_defaultAccess
             (set_access none (WidgetFrame_new (sample_options None)))))
       CallLog_empty
     = call_handler "GristDocAPI" (fun _ => Return JsNull)
         [JsString "Table1"]
         {| checked := checked CallLog_empty ++ [(full, Some "invoke")];
            invoked := invoked CallLog_empty |}).
Proof.
  apply (raised_to_full_permits GristDocAPIImpl_defaultAccess
           (WidgetFrame_new (sample_options None)) "GristDocAPI" "fetchTable"
           GristDocAPI_sample (fun _ => Return JsNull) [JsString "Table1"]
           CallLog_empty).
  - discriminate.
  - discriminate.
  - reflexivity.
Defined.

(** [getDocName] is denied at level [none]; after the level of the frame is
    raised to [full] the implementation registered before is still gated
    by [none].  And a method without any rule, [fetchTable] under example 1
    of the documentation, is denied by a frame built at level [full]. *)
Lemma exposeAPI_not_raised :
  fst (call_impl "GristDocAPI" "getDocName" []
         (docapi_frame GristDocAPIImpl_defaultAccess (Some none))
         CallLog_empty)
    = Throw (access_denied none)
  ∧ _options_access
      (set_access full (docapi_frame GristDocAPIImpl_defaultAccess (Some none)))
    = full
  ∧ fst (call_impl "GristDocAPI" "getDocName" []
           (set_access full
              (docapi_frame GristDocAPIImpl_defaultAccess (Some none)))
           CallLog_empty)
    = Throw (access_denied none)
  ∧ fst (call_impl "GristDocAPI" "fetchTable" []
           (docapi_frame getDocName_only (Some none)) CallLog_empty)
    = Throw (access_denied none)
  ∧ fst (call_impl "GristDocAPI" "fetchTable" []
           (docapi_frame getDocName_only (Some full)) CallLog_empty)
    = Throw (access_denied full).
Proof. repeat split; reflexivity. Qed.

(** ** Construction with no access level *)





(** ** Inbound messages *)

(** While the frame is attached and not disposed, a message from its iframe
    is handed to the endpoint with the reserved destination wiped, after
    the ready event was triggered if the message is of type [Ready]. *)
Lemma window_message_accepted (event : MessageEvent) (fr : WidgetFrame) :
  _iframe fr = Some (event_source event) → disposed fr = false →
  listener fr = true →
  window_message event fr
  = with_rpc (receiveMessage (wipe_grist (data event)))
      (if decide (mtype (wipe_grist (data event)) = Ready)
       then trigger_ready fr else fr).
Proof.
  intros Hframe Hdisp Hlisten. unfold window_message, _onMessage.
  rewrite Hlisten, Hframe, Hdisp.
  rewrite bool_decide_eq_true_2 by reflexivity. reflexivity.
Qed.

Lemma wipe_grist_mtype (msg : IMessage) : mtype (wipe_grist msg) = mtype msg.
Proof. unfold wipe_grist. case_decide; reflexivity. Qed.

Lemma window_message_attachment (event : MessageEvent) (fr : WidgetFrame) :
  _iframe (window_message event fr) = _iframe fr
  ∧ disposed (window_message event fr) = disposed fr
  ∧ listener (window_message event fr) = listener fr.
Proof.
  unfold window_message, _onMessage.
  destruct (listener fr) eqn:Hl; [| by rewrite Hl].
  destruct (_iframe fr) as [w |] eqn:Hw; [| by rewrite Hl, Hw].
  destruct (bool_decide (event_source event = w) && negb (disposed fr));
    [| by rewrite Hl, Hw].
  case_decide; simpl; by rewrite ?Hl, ?Hw.
Qed.

(** C5 (as amended).  While the frame is attached and not disposed, the
    ready event is triggered once for each ready-type message that comes
    from the attached iframe, and every message is handed on to normal
    processing, in order. *)
Theorem ready_triggered_per_message
    (events : list MessageEvent) (fr : WidgetFrame) (w : Window) :
  _iframe fr = Some w → disposed fr = false → listener fr = true →
  Forall (fun event => event_source event = w) events →
  ready_count (deliver_all events fr)
  = ready_count fr
    + length (filter (fun event => mtype (data event) = Ready) events)
  ∧ received (_rpc (deliver_all events fr))
    = received (_rpc fr) ++ map (fun event => wipe_grist (data event)) events.
Proof.
  intros Hframe Hdisp Hlisten Hall. revert fr Hframe Hdisp Hlisten.
  induction Hall as [| event events Hsrc _ IH]; intros fr Hframe Hdisp Hlisten.
  - simpl. rewrite Nat.add_0_r, app_nil_r. done.
  - unfold deliver_all. simpl. fold (deliver_all events (window_message event fr)).
    destruct (window_message_attachment event fr) as (Ha & Hb & Hc).
    destruct (IH (window_message event fr)) as [IHr IHm];
      [congruence | congruence | congruence |].
    rewrite IHr, IHm.
    rewrite window_message_accepted by congruence.
    rewrite wipe_grist_mtype, filter_cons.
    destruct (decide (mtype (data event) = Ready)) as [Hready | Hother];
      simpl; rewrite <- ?app_assoc; simpl; split; try reflexivity; lia.
Qed.

Lemma ready_triggered_per_message_witness :
  ready_count
    (deliver_all [from_window 7 ready_message;
                  from_window 7 (call_message (Some "grist"))]
       (attached_frame 7))
  = ready_count (attached_frame 7)
    + length (filter (fun event => mtype (data event) = Ready)
                [from_window 7 ready_message;
                 from_window 7 (call_message (Some "grist"))])
  ∧ received
      (_rpc (deliver_all [from_window 7 ready_message;
                          from_window 7 (call_message (Some "grist"))]
               (attached_frame 7)))
    = received (_rpc (attached_frame 7))
      ++ map (fun event => wipe_grist (data event))
           [from_window 7 ready_message;
            from_window 7 (call_message (Some "grist"))].
Proof.
  apply (ready_triggered_per_message
           [from_window 7 ready_message;
            from_window 7 (call_message (Some "grist"))]
           (attached_frame 7) 7).
  - reflexivity.
  - reflexivity.
  - reflexivity.
  - repeat constructor.
Defined.

(** Two ready messages from the attached iframe trigger the ready event
    twice. *)
Lemma ready_triggered_twice :
  ready_count
    (deliver_all [from_window 7 ready_message; from_window 7 ready_message]
       (attached_frame 7))
  = 2.
Proof. reflexivity. Qed.

Lemma route_wiped (msg : IMessage) : route (set_mdest (Some "") msg) = Local.
Proof. reflexivity. Qed.

Lemma wipe_grist_wiped (msg : IMessage) :
  wipe_grist (set_mdest (Some "") msg) = set_mdest (Some "") msg.
Proof. unfold wipe_grist. case_decide as Hd; [discriminate Hd | reflexivity]. Qed.

(** C6.  For every message from the attached iframe whose destination is
    the reserved tag "grist", the frame wipes the tag and hands the message
    to its own endpoint, where it is handled locally and not forwarded; the
    frame ends in the very state it reaches when the message arrives with
    an empty destination, and the message handed on is, to the endpoint,
    the message without a destination. *)
Theorem grist_destination_wiped
    (event : MessageEvent) (fr : WidgetFrame) :
  _iframe fr = Some (event_source event) → disposed fr = false →
  listener fr = true → mdest (data event) = Some "grist" →
  received (_rpc (window_message event fr))
  = received (_rpc fr) ++ [set_mdest (Some "") (data event)]
  ∧ route (set_mdest (Some "") (data event)) = Local
  ∧ window_message event fr
    = window_message
        (from_window (event_source event) (set_mdest (Some "") (data event)))
        fr
  ∧ same_to_rpc (set_mdest (Some "") (data event))
      (set_mdest None (data event)).
Proof.
  intros Hframe Hdisp Hlisten Hdest.
  assert (wipe_grist (data event) = set_mdest (Some "") (data event)) as Hwipe.
  { unfold wipe_grist. rewrite decide_True by exact Hdest. reflexivity. }
  split; [| split; [apply route_wiped | split]].
  - rewrite window_message_accepted by assumption. rewrite Hwipe.
    case_decide; reflexivity.
  - rewrite !window_message_accepted by assumption. simpl.
    rewrite wipe_grist_wiped, Hwipe. reflexivity.
  - repeat split.
Qed.

Lemma grist_destination_wiped_witness :
  received
    (_rpc (window_message (from_window 7 (call_message (Some "grist")))
             (attached_frame 7)))
  = received (_rpc (attached_frame 7))
    ++ [set_mdest (Some "")
          (data (from_window 7 (call_message (Some "grist"))))]
  ∧ route (set_mdest (Some "")
             (data (from_window 7 (call_message (Some "grist")))))
    = Local
  ∧ window_message (from_window 7 (call_message (Some "grist")))
      (attached_frame 7)
    = window_message
        (from_window
           (event_source (from_window 7 (call_message (Some "grist"))))
           (set_mdest (Some "")
              (data (from_window 7 (call_message (Some "grist"))))))
        (attached_frame 7)
  ∧ same_to_rpc
      (set_mdest (Some "")
         (data (from_window 7 (call_message (Some "grist")))))
      (set_mdest None (data (from_window 7 (call_message (Some "grist"))))).
Proof.
  apply (grist_destination_wiped (from_window 7 (call_message (Some "grist")))
           (attached_frame 7));
    reflexivity.
Defined.

(** A message for another destination keeps it, and the endpoint would
    forward it. *)
Example other_destination_kept :
  wipe_grist (call_message (Some "backend")) = call_message (Some "backend")
  ∧ route (wipe_grist (call_message (Some "backend"))) = Forward "backend".
Proof. split; reflexivity. Qed.

(** Messages from another window, or arriving before the iframe exists,
    are dropped. *)
Lemma window_message_other_source (event : MessageEvent) (fr : WidgetFrame) :
  _iframe fr ≠ Some (event_source event) → window_message event fr = fr.
Proof.
  intros Hsrc. unfold window_message, _onMessage.
  destruct (listener fr); [| reflexivity].
  destruct (_iframe fr) as [w |]; [| reflexivity].
  rewrite bool_decide_eq_false_2; [reflexivity | congruence].
Qed.

(** ** Disposal *)

Lemma window_message_disposed (event : MessageEvent) (fr : WidgetFrame) :
  disposed fr = true → window_message event fr = fr.
Proof.
  intros Hdisp. unfold window_message, _onMessage. rewrite Hdisp.
  destruct (listener fr); [| reflexivity].
  destruct (_iframe fr); [| reflexivity].
  rewrite andb_false_r. reflexivity.
Qed.

Lemma dispose_disposed (fr : WidgetFrame) : disposed (dispose fr) = true.
Proof. unfold dispose. destruct (disposed fr) eqn:Hd; [exact Hd | reflexivity]. Qed.

(** Disposing twice is disposing once. *)
Lemma dispose_idempotent (fr : WidgetFrame) : dispose (dispose fr) = dispose fr.
Proof.
  unfold dispose at 1. rewrite dispose_disposed. reflexivity.
Qed.

(** No message is accepted after disposal. *)
Lemma dispose_drops_messages (event : MessageEvent) (fr : WidgetFrame) :
  window_message event (dispose fr) = dispose fr.
Proof. apply window_message_disposed, dispose_disposed. Qed.

(** Unregistering a name twice is unregistering it once. *)
Lemma unregisterImpl_idempotent (name : string) (rpc : Rpc) :
  unregisterImpl name (unregisterImpl name rpc) = unregisterImpl name rpc.
Proof. unfold unregisterImpl. simpl. by rewrite delete_delete_eq. Qed.

Lemma run_disposers_funcs (l : list Disposer) (fr : WidgetFrame) :
  _funcs (_rpc (foldr run_disposer fr l)) = _funcs (_rpc fr).
Proof.
  induction l as [| d l IH]; [reflexivity |].
  simpl. destruct d; simpl; exact IH.
Qed.

Lemma run_disposers_detach (l : list Disposer) (fr : WidgetFrame) :
  detachTransport ∈ l →
  listener (foldr run_disposer fr l) = false
  ∧ _sendMessage (_rpc (foldr run_disposer fr l)) = noop.
Proof.
  induction l as [| d l IH]; intros Hin.
  - by apply elem_of_nil in Hin.
  - apply elem_of_cons in Hin. simpl.
    destruct d; simpl; try done.
    all: apply IH; destruct Hin as [Heq | Hin]; [discriminate | done].
Qed.

Lemma run_disposers_unregistered (l : list Disposer) (fr : WidgetFrame)
    (name : string) :
  _implMap (_rpc fr) !! name = None ∨ unregister name ∈ l →
  _implMap (_rpc (foldr run_disposer fr l)) !! name = None.
Proof.
  induction l as [| d l IH]; intros Hcase.
  - destruct Hcase as [Hnone | Hin]; [exact Hnone | by apply elem_of_nil in Hin].
  - simpl. destruct d as [| | name']; simpl.
    + apply IH. destruct Hcase as [? | Hin]; [by left |].
      apply elem_of_cons in Hin as [? | ?]; [discriminate | by right].
    + apply IH. destruct Hcase as [? | Hin]; [by left |].
      apply elem_of_cons in Hin as [? | ?]; [discriminate | by right].
    + destruct (decide (name' = name)) as [-> | Hne].
      * apply lookup_delete_eq.
      * rewrite lookup_delete_ne by done. apply IH.
        destruct Hcase as [? | Hin]; [by left |].
        apply elem_of_cons in Hin as [? | ?]; [congruence | by right].
Qed.

(** Disposal stops the transport in both directions and unregisters what
    [exposeAPI] registered. *)
Lemma dispose_teardown {C : Type} `{AccessChecker C}
    (name : string) (api : Impl) (checker : C) (fr : WidgetFrame) :
  disposed fr = false → detachTransport ∈ _disposalList fr →
  listener (dispose (exposeAPI name api checker fr)) = false
  ∧ _sendMessage (_rpc (dispose (exposeAPI name api checker fr))) = noop
  ∧ _implMap (_rpc (dispose (exposeAPI name api checker fr))) !! name = None.
Proof.
  intros Hdisp Hin. unfold dispose. simpl. rewrite Hdisp. simpl.
  split; [| split].
  - apply run_disposers_detach. apply elem_of_app. by left.
  - apply run_disposers_detach. apply elem_of_app. by left.
  - apply run_disposers_unregistered. right.
    apply elem_of_app. right. apply list_elem_of_singleton. reflexivity.
Qed.

Lemma dispose_funcs (fr : WidgetFrame) :
  _funcs (_rpc (dispose fr)) = _funcs (_rpc fr).
Proof.
  unfold dispose. destruct (disposed fr); [reflexivity |].
  simpl. apply run_disposers_funcs.
Qed.

(** C7.  Evaluation of the code where the statement fails: a handler
    registered with [exposeMethod] is still registered under its name after
    the frame is disposed, whereas [exposeAPI] registers the matching
    unregistration with [onDispose]. *)
Theorem exposeMethod_survives_dispose
    {C : Type} `{AccessChecker C} (name : string)
    (h : list JsValue → Outcome JsValue) (checker : C) (fr : WidgetFrame) :
  _funcs (_rpc (dispose (exposeMethod name h checker fr))) !! name
  = Some {| handler := h; method_access := checker_of checker |}.
Proof. rewrite dispose_funcs. apply exposeMethod_lookup. Qed.

(** ** Catch-up on readiness *)

(** [TableNotifier] and [ConfigNotifier] answer the ready event with one
    emission of their state at the end of the turn. *)
Lemma ready_catch_up (n : Notifier) (h : Host) :
  isDisposed n = false → class n ≠ RecordNotifier →
  emitted (fire h (on_ready n)) = emitted n ++ [state h n]
  ∧ pending (fire h (on_ready n)) = false.
Proof.
  intros Hlive Hclass. unfold on_ready, _ready. rewrite Hlive.
  destruct n as [[| level config |] d p e]; simpl in *; subst; try done.
Qed.

(** [RecordNotifier] inherits the empty [_ready] of the base class. *)
Lemma RecordNotifier_ready_ignored (n : Notifier) :
  class n = RecordNotifier → on_ready n = n.
Proof.
  intros Hclass. unfold on_ready, _ready. rewrite Hclass.
  destruct (isDisposed n); reflexivity.
Qed.

(** The table notifier attached before the ready message posts its state
    once when the turn of the ready message ends. *)
Lemma TableNotifier_catch_up (w : Window) (h : Host) :
  posted (ready_session TableNotifier_new {| _minimum := read_table |}
            (Some read_table) w h)
  = [(w, current_state h TableNotifier_new)].
Proof.
  unfold ready_session, window_message, _onMessage. simpl.
  rewrite bool_decide_eq_true_2 by reflexivity. reflexivity.
Qed.

Lemma ConfigNotifier_catch_up (w : Window) (h : Host) :
  posted (ready_session (ConfigNotifier_new h read_table)
            {| _minimum := none |} (Some read_table) w h)
  = [(w, current_state h (ConfigNotifier_new h read_table))].
Proof.
  unfold ready_session, window_message, _onMessage. simpl.
  rewrite bool_decide_eq_true_2 by reflexivity. reflexivity.
Qed.

(** C4.  Evaluation of the code where the statement fails: a record
    notifier attached before the ready message, whatever the checker, the
    granted level and the host state, has emitted nothing when the turn of
    the ready message ends, and nothing was posted to the widget, although
    the ready event was triggered. *)
Theorem RecordNotifier_no_catch_up
    {C : Type} `{AccessChecker C} (checker : C) (level : option AccessLevel)
    (w : Window) (h : Host) :
  ready_count (ready_session RecordNotifier_new checker level w h) = 1
  ∧ map (fun a => emitted (source a))
      (_sources (ready_session RecordNotifier_new checker level w h))
    = [[]]
  ∧ posted (ready_session RecordNotifier_new checker level w h) = [].
Proof.
  unfold ready_session, window_message, _onMessage. simpl.
  rewrite bool_decide_eq_true_2 by reflexivity. simpl.
  repeat split.
Qed.

(** ** Debounced emission *)

Lemma notice_isDisposed (m : Mutation) (n : Notifier) :
  isDisposed (notice m n) = isDisposed n.
Proof.
  unfold notice. destruct (isDisposed n) eqn:Hd; [exact Hd |].
  destruct (class n), m; simpl; try done. case_decide; done.
Qed.

Lemma notice_emitted (m : Mutation) (n : Notifier) :
  emitted (notice m n) = emitted n.
Proof.
  unfold notice. destruct (isDisposed n); [reflexivity |].
  destruct (class n), m; simpl; try done. case_decide; done.
Qed.

Lemma notice_current_state (m : Mutation) (n : Notifier) (h : Host) :
  current_state h (notice m n) = current_state h n.
Proof.
  unfold notice, current_state. destruct (isDisposed n); [reflexivity |].
  destruct (class n) eqn:Hc, m; simpl; rewrite ?Hc; try done.
  case_decide; done.
Qed.

(** One mutation of what a live notifier observes arms its timer and
    leaves its view of the host up to date. *)
Lemma stirs_arms (m : Mutation) (n : Notifier) (h : Host) :
  isDisposed n = false → stirs n m = true →
  pending (notice m n) = true ∧ in_sync (mutate m h) (notice m n).
Proof.
  intros Hlive Hstir. unfold notice, stirs, in_sync, state, current_state in *.
  rewrite Hlive.
  destruct (class n) eqn:Hc, m; simpl in *; rewrite ?Hc; try done.
  apply bool_decide_eq_true in Hstir.
  rewrite decide_False by exact Hstir. simpl. done.
Qed.

Lemma mutations_host (ms : list Mutation) (h : Host) (n : Notifier) :
  fst (mutations ms (h, n)) = foldl (fun h m => mutate m h) h ms.
Proof.
  revert h n. induction ms as [| m ms IH]; intros h n; [reflexivity |].
  simpl. apply IH.
Qed.

(** A burst of mutations of what a live notifier observes leaves its timer
    armed, its log untouched and its view of the host up to date. *)
Lemma mutations_armed (ms : list Mutation) (h : Host) (n : Notifier) :
  isDisposed n = false → all_stir ms n = true →
  pending n = true ∧ in_sync h n ∨ ms ≠ [] →
  let n' := snd (mutations ms (h, n)) in
  let h' := fst (mutations ms (h, n)) in
  pending n' = true ∧ in_sync h' n' ∧ emitted n' = emitted n
  ∧ isDisposed n' = false ∧ current_state h' n' = current_state h' n.
Proof.
  revert h n. induction ms as [| m ms IH]; intros h n Hlive Hall Hstart.
  - simpl. destruct Hstart as [[Hp Hs] | Hne]; [done | congruence].
  - simpl in Hall. apply andb_true_iff in Hall as [Hstir Hall].
    destruct (stirs_arms m n h Hlive Hstir) as [Hp Hs].
    simpl.
    destruct (IH (mutate m h) (notice m n)) as (Hp' & Hs' & He' & Hd' & Hc');
      [by rewrite notice_isDisposed | exact Hall | by left |].
    rewrite Hp', He', Hd', Hc', notice_emitted, notice_current_state. done.
Qed.

(** C8.  For every live notifier and every non-empty sequence of mutations
    of the state it observes, all in one scheduling turn, the turn ends
    with exactly one more emission, and that emission is the state of the
    host after the last mutation. *)
Theorem debounce_coalesces (n : Notifier) (h : Host) (ms : list Mutation) :
  isDisposed n = false → ms ≠ [] → all_stir ms n = true →
  fst (turn ms (h, n)) = foldl (fun h m => mutate m h) h ms
  ∧ emitted (snd (turn ms (h, n)))
    = emitted n ++ [current_state (foldl (fun h m => mutate m h) h ms) n]
  ∧ pending (snd (turn ms (h, n))) = false.
Proof.
  intros Hlive Hne Hall.
  destruct (mutations_armed ms h n Hlive Hall) as (Hp & Hs & He & Hd & Hc);
    [by right |].
  unfold turn. simpl. split; [apply mutations_host |].
  rewrite <- (mutations_host ms h n).
  unfold fire. rewrite Hp. unfold _update, _notify. simpl. rewrite Hd. simpl.
  split; [| reflexivity].
  rewrite He, <- Hc. f_equal. f_equal. exact Hs.
Qed.

Lemma debounce_coalesces_witness :
  fst (turn [setSortedRows [1; 2; 3; 4]%Z; setSortedRows [1; 2; 3; 5]%Z]
         (sample_host, TableNotifier_new))
  = foldl (fun h m => mutate m h) sample_host
      [setSortedRows [1; 2; 3; 4]%Z; setSortedRows [1; 2; 3; 5]%Z]
  ∧ emitted
      (snd (turn [setSortedRows [1; 2; 3; 4]%Z; setSortedRows [1; 2; 3; 5]%Z]
              (sample_host, TableNotifier_new)))
    = emitted TableNotifier_new
      ++ [current_state
            (foldl (fun h m => mutate m h) sample_host
               [setSortedRows [1; 2; 3; 4]%Z; setSortedRows [1; 2; 3; 5]%Z])
            TableNotifier_new]
  ∧ pending
      (snd (turn [setSortedRows [1; 2; 3; 4]%Z; setSortedRows [1; 2; 3; 5]%Z]
              (sample_host, TableNotifier_new)))
    = false.
Proof.
  apply (debounce_coalesces TableNotifier_new sample_host
           [setSortedRows [1; 2; 3; 4]%Z; setSortedRows [1; 2; 3; 5]%Z]).
  - reflexivity.
  - discriminate.
  - reflexivity.
Defined.

(** The table scenario: three rows, the row set changed to four rows twice
    in one turn, one notification with [dataChange] set. *)
Example table_rows_changed_twice :
  emitted
    (snd (turn [setSortedRows [1; 2; 3; 4]%Z; setSortedRows [1; 2; 3; 5]%Z]
            (sample_host, TableNotifier_new)))
  = [CursorState "Table1" (Some 2%Z) true]
  ∧ sortedRows
      (fst (turn [setSortedRows [1; 2; 3; 4]%Z; setSortedRows [1; 2; 3; 5]%Z]
              (sample_host, TableNotifier_new)))
    = [1; 2; 3; 5]%Z.
Proof. split; reflexivity. Qed.

(** Options written back with an equal value are not a mutation for the
    config notifier, and nothing is emitted for them. *)
Example config_equal_options_silent :
  emitted
    (snd (turn [setOptions None] (sample_host, ConfigNotifier_new sample_host full)))
  = [].
Proof. reflexivity. Qed.

(** A disposed notifier emits nothing, whatever happens in the turn. *)
Lemma disposed_notifier_silent (n : Notifier) (h : Host) (ms : list Mutation) :
  isDisposed n = true → emitted (snd (turn ms (h, n))) = emitted n.
Proof.
  intros Hdead. unfold turn. simpl.
  assert (snd (mutations ms (h, n)) = n) as ->.
  { revert h. induction ms as [| m ms IH]; intros h; [reflexivity |].
    simpl. unfold notice at 1. rewrite Hdead. apply IH. }
  unfold fire, _update. simpl. rewrite Hdead.
  destruct (pending n); reflexivity.
Qed.

(** The same burst seen through the frame: the table notifier attached to
    a frame at level [read_table] posts one notification to the iframe. *)
Example frame_posts_once :
  posted
    (end_of_turn (mutate (setSortedRows [1; 2; 3; 5]%Z)
                    (mutate (setSortedRows [1; 2; 3; 4]%Z) sample_host))
       (frame_notice (setSortedRows [1; 2; 3; 5]%Z)
          (frame_notice (setSortedRows [1; 2; 3; 4]%Z)
             (buildDom 7
                (useEvents TableNotifier_new {| _minimum := read_table |}
                   (WidgetFrame_new (sample_options (Some read_table))))))))
  = [(7, CursorState "Table1" (Some 2%Z) true)].
Proof. reflexivity. Qed.

(** After the source is disposed the ready event no longer reaches it. *)
Example disposed_source_ignores_ready :
  on_ready (Notifier_dispose TableNotifier_new)
  = Notifier_dispose TableNotifier_new.
Proof. reflexivity. Qed.

(** * Further properties of the code *)

(** ** Method tables and thresholds *)

Lemma isSatisfied_monotone (L L' minimum : AccessLevel) :
  ordered L ≤ ordered L' →
  isSatisfied L minimum = true → isSatisfied L' minimum = true.
Proof. rewrite !isSatisfied_le. lia. Qed.

(** X1.  A method table never takes back at a higher level what it grants
    at a lower one: if [check] returns true for a method at level [L], it
    returns true for it at every level above [L]. *)
Theorem MethodAccess_check_monotone
    (T : MethodAccess) (L L' : AccessLevel) (m : string) :
  ordered L ≤ ordered L' →
  check T L (Some m) = Return true → check T L' (Some m) = Return true.
Proof.
  intros Hle. unfold check, MethodAccess_check.
  destruct (truthy (Some m)); [| done].
  destruct (_accessMap T !! m) as [minimum |].
  - intros [= Hs]. by rewrite (isSatisfied_monotone L L' minimum Hle Hs).
  - destruct (_accessMap T !! "*") as [minimum |]; [| done].
    intros [= Hs]. by rewrite (isSatisfied_monotone L L' minimum Hle Hs).
Qed.

Lemma MethodAccess_check_monotone_witness :
  check GristDocAPIImpl_defaultAccess full (Some "getDocName") = Return true.
Proof.
  apply (MethodAccess_check_monotone GristDocAPIImpl_defaultAccess
           read_table full "getDocName").
  - simpl. lia.
  - reflexivity.
Defined.

(** X2.  A rule under the exact name wins over the wildcard rule whichever
    of the two [require] calls comes first. *)
Theorem require_exact_beats_wildcard
    (T : MethodAccess) (exact wildcard L : AccessLevel) (m : string) :
  m ≠ "" → m ≠ "*" →
  check (require exact (Some m) (require wildcard None T)) L (Some m)
  = Return (isSatisfied L exact)
  ∧ check (require wildcard None (require exact (Some m) T)) L (Some m)
    = Return (isSatisfied L exact).
Proof.
  intros Hm Hstar. rewrite !MethodAccess_check_eq by exact Hm.
  unfold resolved_rule, require. simpl. split.
  - by rewrite lookup_insert_eq.
  - rewrite lookup_insert_ne by done. by rewrite lookup_insert_eq.
Qed.

Lemma require_exact_beats_wildcard_witness :
  check (require none (Some "getOption")
           (require full None MethodAccess_new)) read_table (Some "getOption")
  = Return (isSatisfied read_table none)
  ∧ check (require full None
             (require none (Some "getOption") MethodAccess_new))
      read_table (Some "getOption")
    = Return (isSatisfied read_table none).
Proof.
  apply (require_exact_beats_wildcard MethodAccess_new none full read_table
           "getOption");
    discriminate.
Defined.

(** Requiring a level for a method that already has a rule replaces the
    rule: the table is the one obtained by the last [require] alone, and
    the default matcher of [require] is the wildcard. *)
Lemma require_last_wins
    (T : MethodAccess) (first last : AccessLevel) (method : option string) :
  require last method (require first method T) = require last method T
  ∧ require last None T = require last (Some "*") T.
Proof.
  split; [| reflexivity].
  unfold require. simpl. f_equal. apply insert_insert_eq.
Qed.

(** X3.  A method without a rule of its own falls back to the wildcard
    rule: once [require(level)] was called, every such method is granted
    exactly at the levels that satisfy [level]. *)
Theorem require_wildcard_fallback
    (T : MethodAccess) (level L : AccessLevel) (m : string) :
  m ≠ "" → _accessMap T !! m = None →
  check (require level None T) L (Some m) = Return (isSatisfied L level).
Proof.
  intros Hm Hnone. rewrite MethodAccess_check_eq by exact Hm.
  unfold resolved_rule, require. simpl.
  destruct (decide (m = "*")) as [-> | Hstar].
  - by rewrite lookup_insert_eq.
  - rewrite lookup_insert_ne by done. rewrite Hnone.
    by rewrite lookup_insert_eq.
Qed.

Lemma require_wildcard_fallback_witness :
  check (require read_table None getDocName_only) none (Some "fetchTable")
  = Return (isSatisfied none read_table).
Proof.
  apply (require_wildcard_fallback getDocName_only read_table none
           "fetchTable").
  - discriminate.
  - reflexivity.
Defined.

(** X4.  The table of [GristDocAPIImpl]: at level [full] every method is
    granted, at [read_table] only [getDocName], at [none] nothing. *)
Theorem defaultAccess_characterized (L : AccessLevel) (m : string) :
  m ≠ "" →
  check GristDocAPIImpl_defaultAccess L (Some m)
  = Return (bool_decide (L = full)
            || bool_decide (L = read_table) && String.eqb m "getDocName").
Proof.
  intros Hm. rewrite MethodAccess_check_eq by exact Hm.
  unfold resolved_rule, GristDocAPIImpl_defaultAccess, require,
    MethodAccess_new. simpl.
  destruct (String.eqb_spec m "getDocName") as [-> | Hne].
  - rewrite lookup_insert_ne by discriminate. rewrite lookup_insert_eq.
    destruct L; reflexivity.
  - destruct (decide (m = "*")) as [-> | Hstar].
    + rewrite lookup_insert_eq. destruct L; reflexivity.
    + rewrite lookup_insert_ne by done.
      rewrite lookup_insert_ne by done.
      rewrite lookup_empty, lookup_insert_eq. destruct L; reflexivity.
Qed.

Lemma defaultAccess_characterized_witness :
  check GristDocAPIImpl_defaultAccess read_table (Some "applyUserActions")
  = Return (bool_decide (read_table = full)
            || bool_decide (read_table = read_table)
               && String.eqb "applyUserActions" "getDocName").
Proof.
  apply (defaultAccess_characterized read_table "applyUserActions").
  discriminate.
Defined.

(** ** The gate when access is granted, and its edges *)

(** X5.  When the checker grants the call, the gate evaluates the checker
    once, then enters the method with the arguments unchanged and hands
    back whatever the method returns or throws. *)
Theorem wrapObject_granted
    {C : Type} `{AccessChecker C} (api : Impl) (checker : C)
    (access : AccessLevel) (methodName : string)
    (body : list JsValue → Outcome JsValue) (arguments : list JsValue)
    (log : CallLog) :
  methodName ≠ "then" →
  check checker access (Some methodName) = Return true →
  api methodName = Some body →
  proxy_get (wrapObject api checker access) methodName arguments log
  = (body arguments,
     {| checked := checked log ++ [(access, Some methodName)];
        invoked := invoked log ++ [(methodName, arguments)] |}).
Proof.
  intros Hthen Hgranted Hbody.
  rewrite (proxy_get_gated _ _ _ _ Hthen). simpl.
  unfold checker_of. rewrite Hgranted.
  unfold call_method. simpl. rewrite Hbody. reflexivity.
Qed.

Lemma wrapObject_granted_witness :
  proxy_get (wrapObject GristDocAPI_sample GristDocAPIImpl_defaultAccess
               read_table) "getDocName" [JsNumber 1] CallLog_empty
  = ((fun _ => Return (JsString "getDocName")) [JsNumber 1],
     {| checked := checked CallLog_empty ++ [(read_table, Some "getDocName")];
        invoked := invoked CallLog_empty ++ [("getDocName", [JsNumber 1])] |}).
Proof.
  apply (wrapObject_granted GristDocAPI_sample GristDocAPIImpl_defaultAccess
           read_table "getDocName" (fun _ => Return (JsString "getDocName"))
           [JsNumber 1] CallLog_empty).
  - discriminate.
  - reflexivity.
  - reflexivity.
Defined.

(** X6.  A granted call of a member the wrapped object does not have
    fails with a [TypeError] after the check; no method is entered. *)
Theorem wrapObject_granted_missing_method
    {C : Type} `{AccessChecker C} (api : Impl) (checker : C)
    (access : AccessLevel) (methodName : string) (arguments : list JsValue)
    (log : CallLog) :
  methodName ≠ "then" →
  check checker access (Some methodName) = Return true →
  api methodName = None →
  proxy_get (wrapObject api checker access) methodName arguments log
  = (Throw (TypeError "target[methodName] is not a function"),
     {| checked := checked log ++ [(access, Some methodName)];
        invoked := invoked log |}).
Proof.
  intros Hthen Hgranted Hbody.
  rewrite (proxy_get_gated _ _ _ _ Hthen). simpl.
  unfold checker_of. rewrite Hgranted.
  unfold call_method. simpl. rewrite Hbody. reflexivity.
Qed.

Lemma wrapObject_granted_missing_method_witness :
  proxy_get (wrapObject GristDocAPI_sample GristDocAPIImpl_defaultAccess
               full) "dropTable" [] CallLog_empty
  = (Throw (TypeError "target[methodName] is not a function"),
     {| checked := checked CallLog_empty ++ [(full, Some "dropTable")];
        invoked := invoked CallLog_empty |}).
Proof.
  apply (wrapObject_granted_missing_method GristDocAPI_sample
           GristDocAPIImpl_defaultAccess full "dropTable" [] CallLog_empty).
  - discriminate.
  - reflexivity.
  - reflexivity.
Defined.

(** X7.  Behind a method table, a call of the member with the empty name
    is neither granted nor denied: the table's own failure, that a method
    name is required, comes out of the gate, at every level and whatever
    the rules, and no method is entered. *)
Theorem wrapObject_empty_method_name
    (api : Impl) (T : MethodAccess) (access : AccessLevel)
    (arguments : list JsValue) (log : CallLog) :
  proxy_get (wrapObject api T access) "" arguments log
  = (Throw (Error "Method name is required for MethodAccess check"),
     {| checked := checked log ++ [(access, Some "")];
        invoked := invoked log |}).
Proof. reflexivity. Qed.

(** X8.  A function registered with [exposeMethod] under a method table
    is gated by the table's rule for the name [invoke], resolved like any
    other name; the name the function is registered under does not count. *)
Theorem exposeMethod_gated_by_invoke
    (T : MethodAccess) (fr : WidgetFrame) (name : string)
    (h : list JsValue → Outcome JsValue) (arguments : list JsValue)
    (log : CallLog) :
  call_func name arguments (exposeMethod name h T fr) log
  = let log' := {| checked := checked log
                                ++ [(_options_access fr, Some "invoke")];
                   invoked := invoked log |} in
    match resolved_rule T "invoke" with
    | Some minimum =>
        if isSatisfied (_options_access fr) minimum
        then call_handler name h arguments log'
        else (Throw (access_denied (_options_access fr)), log')
    | None => (Throw (access_denied (_options_access fr)), log')
    end.
Proof.
  rewrite (call_func_gated name
             {| handler := h; method_access := checker_of T |})
    by apply exposeMethod_lookup.
  simpl. unfold checker_of.
  rewrite (MethodAccess_check_eq T (_options_access fr) "invoke")
    by discriminate.
  destruct (resolved_rule T "invoke") as [minimum |]; [| reflexivity].
  destruct (isSatisfied (_options_access fr) minimum); reflexivity.
Qed.

(** A rule for the function's own name grants nothing, even at [full]. *)
Example exposeMethod_own_name_rule_unused :
  fst (call_func "configure" []
         (exposeMethod "configure" (fun _ => Return JsNull)
            (require none (Some "configure") MethodAccess_new)
            (WidgetFrame_new (sample_options (Some full))))
         CallLog_empty)
  = Throw (access_denied full).
Proof. reflexivity. Qed.

(** ** Registrations *)

(** X9.  A name can be registered once.  After [exposeAPI] registered an
    implementation under a name that was free, a second [exposeAPI] and
    an [exposeMethod] under that name both fail with the endpoint's
    "already been called" failure, so calls keep reaching the first
    object behind the first checker; disposal leaves nothing under the
    name. *)
Theorem exposeAPI_first_wins
    {C1 : Type} `{AccessChecker C1} {C2 : Type} `{AccessChecker C2}
    (name m : string) (api1 api2 : Impl) (c1 : C1) (c2 : C2)
    (h : list JsValue → Outcome JsValue) (fr : WidgetFrame)
    (arguments : list JsValue) (log : CallLog) :
  in_use name (_rpc fr) = false → disposed fr = false →
  exposeAPI_call name api1 c1 fr = Return (exposeAPI name api1 c1 fr)
  ∧ exposeAPI_call name api2 c2 (exposeAPI name api1 c1 fr)
    = Throw (already_registered name)
  ∧ exposeMethod_call name h c2 (exposeAPI name api1 c1 fr)
    = Throw (already_registered name)
  ∧ call_impl name m arguments (exposeAPI name api1 c1 fr) log
    = proxy_get (wrapObject api1 c1 (_options_access fr)) m arguments log
  ∧ _implMap (_rpc (dispose (exposeAPI name api1 c1 fr))) !! name = None.
Proof.
  intros Hfree Hlive.
  assert (in_use name (_rpc (exposeAPI name api1 c1 fr)) = true) as Hused.
  { unfold in_use. simpl. rewrite lookup_insert_eq.
    rewrite bool_decide_eq_true_2 by (by eexists). reflexivity. }
  repeat split.
  - apply exposeAPI_call_free, Hfree.
  - unfold exposeAPI_call, registerImpl. rewrite Hused. reflexivity.
  - unfold exposeMethod_call, registerFunc. rewrite Hused. reflexivity.
  - apply call_impl_exposeAPI.
  - unfold dispose. simpl. rewrite Hlive. simpl.
    apply run_disposers_unregistered. right.
    apply elem_of_app. right. apply list_elem_of_singleton. reflexivity.
Qed.

Lemma exposeAPI_first_wins_witness :
  exposeAPI_call "GristDocAPI" GristDocAPI_sample
    GristDocAPIImpl_defaultAccess (WidgetFrame_new (sample_options None))
  = Return
      (exposeAPI "GristDocAPI" GristDocAPI_sample
         GristDocAPIImpl_defaultAccess
         (WidgetFrame_new (sample_options None)))
  ∧ exposeAPI_call "GristDocAPI" (fun _ => None) {| _minimum := none |}
      (exposeAPI "GristDocAPI" GristDocAPI_sample
         GristDocAPIImpl_defaultAccess
         (WidgetFrame_new (sample_options None)))
    = Throw (already_registered "GristDocAPI")
  ∧ exposeMethod_call "GristDocAPI" (fun _ => Return JsNull)
      {| _minimum := none |}
      (exposeAPI "GristDocAPI" GristDocAPI_sample
         GristDocAPIImpl_defaultAccess
         (WidgetFrame_new (sample_options None)))
    = Throw (already_registered "GristDocAPI")
  ∧ call_impl "GristDocAPI" "getDocName" []
      (exposeAPI "GristDocAPI" GristDocAPI_sample
         GristDocAPIImpl_defaultAccess
         (WidgetFrame_new (sample_options None)))
      CallLog_empty
    = proxy_get
        (wrapObject GristDocAPI_sample GristDocAPIImpl_defaultAccess
           (_options_access (WidgetFrame_new (sample_options None))))
        "getDocName" [] CallLog_empty
  ∧ _implMap
      (_rpc (dispose
               (exposeAPI "GristDocAPI" GristDocAPI_sample
                  GristDocAPIImpl_defaultAccess
                  (WidgetFrame_new (sample_options None)))))
    !! "GristDocAPI"
    = None.
Proof.
  apply (exposeAPI_first_wins "GristDocAPI" "getDocName" GristDocAPI_sample
           (fun _ => None) GristDocAPIImpl_defaultAccess
           {| _minimum := none |} (fun _ => Return JsNull)
           (WidgetFrame_new (sample_options None)) [] CallLog_empty);
    reflexivity.
Defined.

(** X10.  Registrations under different names do not interfere: after an
    [exposeAPI] or an [exposeMethod] under another name, a call to an
    implementation or to a function reaches what it reached before. *)
Theorem registrations_independent
    {C : Type} `{AccessChecker C} (name other m : string) (api : Impl)
    (h : list JsValue → Outcome JsValue) (c : C) (fr : WidgetFrame)
    (arguments : list JsValue) (log : CallLog) :
  name ≠ other →
  call_impl name m arguments (exposeAPI other api c fr) log
  = call_impl name m arguments fr log
  ∧ call_impl name m arguments (exposeMethod other h c fr) log
    = call_impl name m arguments fr log
  ∧ call_func name arguments (exposeAPI other api c fr) log
    = call_func name arguments fr log
  ∧ call_func name arguments (exposeMethod other h c fr) log
    = call_func name arguments fr log.
Proof.
  intros Hne. unfold call_impl, call_func. simpl.
  rewrite !lookup_insert_ne by done. done.
Qed.

Lemma registrations_independent_witness :
  call_impl "GristDocAPI" "getDocName" []
    (exposeAPI "WidgetAPI" (fun _ => None) {| _minimum := none |}
       (docapi_frame GristDocAPIImpl_defaultAccess (Some full)))
    CallLog_empty
  = call_impl "GristDocAPI" "getDocName" []
      (docapi_frame GristDocAPIImpl_defaultAccess (Some full)) CallLog_empty
  ∧ call_impl "GristDocAPI" "getDocName" []
      (exposeMethod "WidgetAPI" (fun _ => Return JsNull)
         {| _minimum := none |}
         (docapi_frame GristDocAPIImpl_defaultAccess (Some full)))
      CallLog_empty
    = call_impl "GristDocAPI" "getDocName" []
        (docapi_frame GristDocAPIImpl_defaultAccess (Some full)) CallLog_empty
  ∧ call_func "GristDocAPI" []
      (exposeAPI "WidgetAPI" (fun _ => None) {| _minimum := none |}
         (docapi_frame GristDocAPIImpl_defaultAccess (Some full)))
      CallLog_empty
    = call_func "GristDocAPI" []
        (docapi_frame GristDocAPIImpl_defaultAccess (Some full)) CallLog_empty
  ∧ call_func "GristDocAPI" []
      (exposeMethod "WidgetAPI" (fun _ => Return JsNull)
         {| _minimum := none |}
         (docapi_frame GristDocAPIImpl_defaultAccess (Some full)))
      CallLog_empty
    = call_func "GristDocAPI" []
        (docapi_frame GristDocAPIImpl_defaultAccess (Some full))
        CallLog_empty.
Proof.
  apply (registrations_independent "GristDocAPI" "WidgetAPI" "getDocName"
           (fun _ => None) (fun _ => Return JsNull) {| _minimum := none |}
           (docapi_frame GristDocAPIImpl_defaultAccess (Some full)) []
           CallLog_empty).
  discriminate.
Defined.

(** The two parts of the implementation map stay disjoint under the
    registrations the endpoint accepts. *)
Lemma registrations_disjoint {C : Type} `{AccessChecker C} (name : string)
    (api : Impl) (h : list JsValue → Outcome JsValue) (c : C)
    (fr fr' : WidgetFrame) :
  (∀ n, _implMap (_rpc fr) !! n = None ∨ _funcs (_rpc fr) !! n = None) →
  exposeAPI_call name api c fr = Return fr'
  ∨ exposeMethod_call name h c fr = Return fr' →
  ∀ n, _implMap (_rpc fr') !! n = None ∨ _funcs (_rpc fr') !! n = None.
Proof.
  intros Hdisj Hcall n.
  unfold exposeAPI_call, exposeMethod_call, registerImpl, registerFunc
    in Hcall.
  destruct (in_use name (_rpc fr)) eqn:Huse;
    [destruct Hcall; discriminate |].
  apply orb_false_iff in Huse as [Hi Hf].
  apply bool_decide_eq_false in Hi. apply bool_decide_eq_false in Hf.
  destruct Hcall as [[= <-] | [= <-]]; simpl;
    (destruct (decide (name = n)) as [<- | Hne];
     [| rewrite lookup_insert_ne by done; apply Hdisj]).
  - right. destruct (_funcs (_rpc fr) !! name) eqn:E; [| done].
    exfalso. apply Hf. by eexists.
  - left. destruct (_implMap (_rpc fr) !! name) eqn:E; [| done].
    exfalso. apply Hi. by eexists.
Qed.

(** ** Events on their way to the widget *)

(** X11.  An event source attached with a method table as its checker
    never gets an event through: the handler calls [check] without a
    method name, the table throws, and nothing is posted. *)
Theorem useEvents_MethodAccess_never_posts
    (T : MethodAccess) (n : Notifier) (on : bool) (data : EventData)
    (fr : WidgetFrame) :
  on_event {| source := n; source_access := checker_of T; handler_on := on |}
    data fr
  = fr.
Proof. unfold on_event. simpl. destruct on; reflexivity. Qed.

(** X12.  Behind a threshold checker, an event is posted to the iframe
    exactly when the level the frame holds at that moment satisfies the
    threshold; otherwise it is dropped, not kept for later. *)
Theorem useEvents_MinimumLevel_filter
    (minimum : AccessLevel) (n : Notifier) (data : EventData)
    (fr : WidgetFrame) (w : Window) :
  _iframe fr = Some w → _sendMessage (_rpc fr) = postToIframe →
  posted
    (on_event {| source := n;
                 source_access := checker_of {| _minimum := minimum |};
                 handler_on := true |} data fr)
  = if isSatisfied (_options_access fr) minimum
    then posted fr ++ [(w, data)]
    else posted fr.
Proof.
  intros Hframe Hsender. unfold on_event, postMessage. simpl.
  unfold checker_of, check, MinimumLevel_check. simpl.
  destruct (isSatisfied (_options_access fr) minimum); [| reflexivity].
  rewrite Hsender, Hframe. reflexivity.
Qed.

Lemma useEvents_MinimumLevel_filter_witness :
  posted
    (on_event {| source := TableNotifier_new;
                 source_access := checker_of {| _minimum := read_table |};
                 handler_on := true |}
       (CursorState "Table1" None true) (attached_frame 7))
  = if isSatisfied (_options_access (attached_frame 7)) read_table
    then posted (attached_frame 7) ++ [(7, CursorState "Table1" None true)]
    else posted (attached_frame 7).
Proof.
  apply (useEvents_MinimumLevel_filter read_table TableNotifier_new
           (CursorState "Table1" None true) (attached_frame 7) 7);
    reflexivity.
Defined.

Lemma on_event_muted (fr : WidgetFrame) (raised : list (Attached * EventData)) :
  (∀ data, postMessage data fr = fr) →
  foldl (fun acc ad => on_event (fst ad) (snd ad) acc) fr raised = fr.
Proof.
  intros Hmute. induction raised as [| [a data] raised IH]; [reflexivity |].
  simpl. unfold on_event at 2. simpl.
  destruct (handler_on a); [| exact IH].
  destruct (source_access a (_options_access fr) None) as [[|] | e];
    rewrite ?Hmute; exact IH.
Qed.

(** X13.  Until [buildDom] has created the iframe nothing goes in or out:
    a message event leaves the frame as it is, and what the attached
    sources emit at the end of a turn is posted nowhere. *)
Theorem no_iframe_no_traffic
    (event : MessageEvent) (h : Host) (fr : WidgetFrame) :
  _iframe fr = None →
  window_message event fr = fr ∧ posted (end_of_turn h fr) = posted fr.
Proof.
  intros Hnone. split.
  - apply window_message_other_source. rewrite Hnone. discriminate.
  - unfold end_of_turn. rewrite on_event_muted; [reflexivity |].
    intros data. unfold postMessage. simpl. rewrite Hnone.
    destruct (_sendMessage (_rpc fr)); reflexivity.
Qed.

Lemma no_iframe_no_traffic_witness :
  window_message (from_window 7 ready_message)
    (useEvents TableNotifier_new {| _minimum := none |}
       (WidgetFrame_new (sample_options (Some full))))
  = useEvents TableNotifier_new {| _minimum := none |}
      (WidgetFrame_new (sample_options (Some full)))
  ∧ posted
      (end_of_turn sample_host
         (useEvents TableNotifier_new {| _minimum := none |}
            (WidgetFrame_new (sample_options (Some full)))))
    = posted
        (useEvents TableNotifier_new {| _minimum := none |}
           (WidgetFrame_new (sample_options (Some full)))).
Proof.
  apply (no_iframe_no_traffic (from_window 7 ready_message) sample_host
           (useEvents TableNotifier_new {| _minimum := none |}
              (WidgetFrame_new (sample_options (Some full))))).
  reflexivity.
Defined.

(** X14.  A message event whose source is not the window of the frame's
    own iframe leaves the frame exactly as it is, whatever it carries. *)
Theorem foreign_message_ignored
    (event : MessageEvent) (fr : WidgetFrame) (w : Window) :
  _iframe fr = Some w → event_source event ≠ w →
  window_message event fr = fr.
Proof.
  intros Hframe Hsrc. apply window_message_other_source.
  rewrite Hframe. congruence.
Qed.

Lemma foreign_message_ignored_witness :
  window_message (from_window 8 (call_message (Some "grist")))
    (attached_frame 7)
  = attached_frame 7.
Proof.
  apply (foreign_message_ignored (from_window 8 (call_message (Some "grist")))
           (attached_frame 7) 7).
  - reflexivity.
  - discriminate.
Defined.

(** ** After disposal *)

Lemma run_disposers_posted (l : list Disposer) (fr : WidgetFrame) :
  posted (foldr run_disposer fr l) = posted fr.
Proof.
  induction l as [| d l IH]; [reflexivity |].
  simpl. destruct d; simpl; exact IH.
Qed.

(** X16.  Disposing a frame that holds the constructor's cleanup and an
    implementation registered with [exposeAPI] removes the message
    listener, installs the no-op sender, leaves nothing registered under
    the name, and from then on every message event is dropped. *)
Theorem dispose_tears_down
    {C : Type} `{AccessChecker C} (name : string) (api : Impl) (checker : C)
    (fr : WidgetFrame) (event : MessageEvent) :
  disposed fr = false → detachTransport ∈ _disposalList fr →
  listener (dispose (exposeAPI name api checker fr)) = false
  ∧ _sendMessage (_rpc (dispose (exposeAPI name api checker fr))) = noop
  ∧ _implMap (_rpc (dispose (exposeAPI name api checker fr))) !! name = None
  ∧ window_message event (dispose (exposeAPI name api checker fr))
    = dispose (exposeAPI name api checker fr).
Proof.
  intros Hlive Hin.
  destruct (dispose_teardown name api checker fr Hlive Hin) as (Hl & Hs & Hi).
  repeat split; try assumption. apply dispose_drops_messages.
Qed.

Lemma dispose_tears_down_witness :
  listener
    (dispose (exposeAPI "GristDocAPI" GristDocAPI_sample
                GristDocAPIImpl_defaultAccess (attached_frame 7)))
  = false
  ∧ _sendMessage
      (_rpc (dispose (exposeAPI "GristDocAPI" GristDocAPI_sample
                        GristDocAPIImpl_defaultAccess (attached_frame 7))))
    = noop
  ∧ _implMap
      (_rpc (dispose (exposeAPI "GristDocAPI" GristDocAPI_sample
                        GristDocAPIImpl_defaultAccess (attached_frame 7))))
    !! "GristDocAPI"
    = None
  ∧ window_message (from_window 7 ready_message)
      (dispose (exposeAPI "GristDocAPI" GristDocAPI_sample
                  GristDocAPIImpl_defaultAccess (attached_frame 7)))
    = dispose (exposeAPI "GristDocAPI" GristDocAPI_sample
                 GristDocAPIImpl_defaultAccess (attached_frame 7)).
Proof.
  apply (dispose_tears_down "GristDocAPI" GristDocAPI_sample
           GristDocAPIImpl_defaultAccess (attached_frame 7)
           (from_window 7 ready_message)).
  - reflexivity.
  - apply elem_of_cons. right. apply elem_of_cons. left. reflexivity.
Defined.

(** X17.  After disposal no notification reaches the iframe: whatever the
    attached sources emit when a later turn ends, the list of posted
    notifications stays as it was before the frame was disposed. *)
Theorem dispose_silences_events (h : Host) (fr : WidgetFrame) :
  disposed fr = false → detachTransport ∈ _disposalList fr →
  posted (end_of_turn h (dispose fr)) = posted fr.
Proof.
  intros Hlive Hin.
  assert (_sendMessage (_rpc (dispose fr)) = noop) as Hnoop.
  { unfold dispose. rewrite Hlive. simpl.
    apply run_disposers_detach, Hin. }
  unfold end_of_turn. rewrite on_event_muted.
  - simpl. unfold dispose. rewrite Hlive. simpl. apply run_disposers_posted.
  - intros data. unfold postMessage. simpl. rewrite Hnoop. reflexivity.
Qed.

Lemma dispose_silences_events_witness :
  posted
    (end_of_turn sample_host
       (dispose
          (frame_notice rowNotify
             (buildDom 7
                (useEvents TableNotifier_new {| _minimum := none |}
                   (WidgetFrame_new (sample_options (Some full))))))))
  = posted
      (frame_notice rowNotify
         (buildDom 7
            (useEvents TableNotifier_new {| _minimum := none |}
               (WidgetFrame_new (sample_options (Some full)))))).
Proof.
  apply (dispose_silences_events sample_host
           (frame_notice rowNotify
              (buildDom 7
                 (useEvents TableNotifier_new {| _minimum := none |}
                    (WidgetFrame_new (sample_options (Some full))))))).
  - reflexivity.
  - apply elem_of_cons. right. apply elem_of_cons. left. reflexivity.
Defined.

(** ** Notifiers: what does not emit *)

(** X18.  The config notifier stays silent when the options are written
    with a value equal to the one it holds: no timer is armed and the turn
    ends without an emission. *)
Theorem ConfigNotifier_equal_options_silent
    (n : Notifier) (h : Host) (level : AccessLevel) (held : CustomOptions) :
  class n = ConfigNotifier level held → pending n = false →
  emitted (snd (turn [setOptions held] (h, n))) = emitted n
  ∧ pending (snd (turn [setOptions held] (h, n))) = false.
Proof.
  intros Hclass Hidle. unfold turn. simpl. unfold notice.
  destruct n as [c d p e]. simpl in *. subst c p.
  destruct d; simpl.
  - unfold fire. simpl. done.
  - rewrite decide_True by reflexivity. unfold fire. simpl. done.
Qed.

Lemma ConfigNotifier_equal_options_silent_witness :
  emitted
    (snd (turn [setOptions (activeCustomOptions sample_host)]
            (sample_host, ConfigNotifier_new sample_host full)))
  = emitted (ConfigNotifier_new sample_host full)
  ∧ pending
      (snd (turn [setOptions (activeCustomOptions sample_host)]
              (sample_host, ConfigNotifier_new sample_host full)))
    = false.
Proof.
  apply (ConfigNotifier_equal_options_silent
           (ConfigNotifier_new sample_host full) sample_host full
           (activeCustomOptions sample_host));
    reflexivity.
Defined.

Lemma notice_unstirred (m : Mutation) (n : Notifier) :
  stirs n m = false → pending (notice m n) = pending n.
Proof.
  unfold stirs, notice. destruct (isDisposed n); [reflexivity |].
  destruct (class n), m; simpl; try done.
  intros Hsame. apply bool_decide_eq_false in Hsame.
  case_decide; [reflexivity | contradiction].
Qed.

(** X19.  A notifier reacts only to the observables it subscribed to: a
    turn made of other mutations ends without an emission.  So the table
    notifier does not report a move of the cursor, although the state it
    emits contains the cursor's row, and the record notifier does not
    report a change of the rows. *)
Theorem unobserved_mutations_silent
    (n : Notifier) (h : Host) (ms : list Mutation) :
  pending n = false → none_stir ms n = true →
  emitted (snd (turn ms (h, n))) = emitted n.
Proof.
  intros Hidle Hnone. unfold turn. simpl.
  assert (pending (snd (mutations ms (h, n))) = false
          ∧ emitted (snd (mutations ms (h, n))) = emitted n) as [Hp He].
  { revert h n Hidle Hnone.
    induction ms as [| m ms IH]; intros h n Hidle Hnone; [done |].
    simpl in Hnone. apply andb_true_iff in Hnone as [Hm Hrest].
    apply negb_true_iff in Hm. simpl.
    destruct (IH (mutate m h) (notice m n)) as [Hp He];
      [by rewrite notice_unstirred | exact Hrest |].
    by rewrite Hp, He, notice_emitted. }
  unfold fire. rewrite Hp. exact He.
Qed.

Lemma unobserved_mutations_silent_witness :
  emitted
    (snd (turn [moveCursor (Some 3%Z); setOptions (Some ∅)]
            (sample_host, TableNotifier_new)))
  = emitted TableNotifier_new.
Proof.
  apply (unobserved_mutations_silent TableNotifier_new sample_host
           [moveCursor (Some 3%Z); setOptions (Some ∅)]);
    reflexivity.
Defined.

(** X20.  Disposing a notifier while its timer is armed cancels the
    emission: when the timer fires, [_update] finds the notifier disposed
    and emits nothing. *)
Theorem dispose_cancels_pending (n : Notifier) (h : Host) :
  emitted (fire h (Notifier_dispose (_debounced n))) = emitted n.
Proof. reflexivity. Qed.

Lemma on_ready_iter (k : nat) (n : Notifier) :
  isDisposed n = false → class n ≠ RecordNotifier →
  Nat.iter (S k) on_ready n = _debounced n.
Proof.
  intros Hlive Hclass. induction k as [| k IH].
  - simpl. unfold on_ready, _ready. rewrite Hlive.
    destruct (class n); done.
  - change (Nat.iter (S (S k)) on_ready n)
      with (on_ready (Nat.iter (S k) on_ready n)).
    rewrite IH. unfold on_ready, _ready. simpl. rewrite Hlive.
    destruct (class n); done.
Qed.

(** X21.  However many ready events a table or config notifier sees in
    one turn, it answers with a single emission of its state when the
    turn ends. *)
Theorem ready_burst_coalesces (k : nat) (n : Notifier) (h : Host) :
  isDisposed n = false → class n ≠ RecordNotifier →
  emitted (fire h (Nat.iter (S k) on_ready n)) = emitted n ++ [state h n].
Proof.
  intros Hlive Hclass. rewrite on_ready_iter by assumption.
  unfold fire, _update, _notify. simpl. rewrite Hlive. simpl.
  destruct n as [c d p e]. reflexivity.
Qed.

Lemma ready_burst_coalesces_witness :
  emitted (fire sample_host (Nat.iter 3 on_ready TableNotifier_new))
  = emitted TableNotifier_new ++ [state sample_host TableNotifier_new].
Proof.
  apply (ready_burst_coalesces 2 TableNotifier_new sample_host).
  - reflexivity.
  - discriminate.
Defined.

(** ** Widget options *)






(** Two reads the gmap of own properties alone would get wrong. *)
Example getOption_inherited :
  WidgetAPIImpl_getOption "constructor"
    (Some {| own := {["a" := JsNumber 1]}; plain := true |})
  = Builtin "constructor"
  ∧ WidgetAPIImpl_getOption "toString"
      (WidgetAPIImpl_setOption "a" (JsNumber 1) None)
    = Builtin "toString"
  ∧ WidgetAPIImpl_getOptions
      (WidgetAPIImpl_setOption "__proto__" (JsNumber 1)
         (Some {| own := {["a" := JsNumber 1]}; plain := true |}))
    = Some {| own := {["a" := JsNumber 1]}; plain := true |}.
Proof. repeat split. Qed.





(** With [{a: 1}] stored, a [setOption] under [__proto__] stores an equal
    copy and the config notifier reports nothing. *)
Example setOption_proto_silent :
  emitted
    (snd (turn [setOptions
                  (own_properties
                     (WidgetAPIImpl_setOption "__proto__" (JsNumber 5)
                        (Some {| own := {["a" := JsNumber 1]};
                                 plain := true |})))]
            (sample_host,
             {| class := ConfigNotifier full (Some {["a" := JsNumber 1]});
                isDisposed := false; pending := false; emitted := [] |})))
  = [].
Proof. reflexivity. Qed.

(** ** Requests of the widget *)

(** X25.  [configure] asks for a new access level exactly when the widget
    names a non-empty level that differs from the current one, and then
    once, passing on the string as it came, access level or not; a request
    that names the current level, the empty string or nothing prompts
    nobody.  The section's flag changes only when the request carries
    one. *)
Theorem configure_prompts
    (current : AccessLevel) (settings : InteractionOptionsRequest)
    (sec : CustomSection) (wanted : string) :
  requiredAccess settings = Some wanted →
  (wanted ≠ "" ∧ wanted ≠ AccessLevel_token current →
   prompted (CustomSectionAPIImpl_configure current settings sec)
   = prompted sec ++ [wanted])
  ∧ (wanted = "" ∨ wanted = AccessLevel_token current →
     prompted (CustomSectionAPIImpl_configure current settings sec)
     = prompted sec)
  ∧ prompted
      (CustomSectionAPIImpl_configure current
         {| req_hasCustomOptions := req_hasCustomOptions settings;
            requiredAccess := None |} sec)
    = prompted sec
  ∧ hasCustomOptions (CustomSectionAPIImpl_configure current settings sec)
    = default (hasCustomOptions sec) (req_hasCustomOptions settings).
Proof.
  intros Hwanted. unfold CustomSectionAPIImpl_configure. rewrite Hwanted.
  simpl. repeat split.
  - intros [Hne Hdiff].
    destruct (String.eqb_spec wanted ""); [done |].
    destruct (String.eqb_spec wanted (AccessLevel_token current)); done.
  - intros [-> | ->].
    + reflexivity.
    + rewrite String.eqb_refl, andb_false_r. reflexivity.
  - destruct (negb (wanted =? "")%string
              && negb (wanted =? AccessLevel_token current)%string);
      destruct (req_hasCustomOptions settings); reflexivity.
Qed.

Lemma configure_prompts_witness :
  (("admin" : string) ≠ "" ∧ "admin" ≠ AccessLevel_token read_table →
   prompted
     (CustomSectionAPIImpl_configure read_table
        {| req_hasCustomOptions := None; requiredAccess := Some "admin" |}
        {| hasCustomOptions := false; prompted := [] |})
   = prompted {| hasCustomOptions := false; prompted := [] |} ++ ["admin"])
  ∧ (("admin" : string) = "" ∨ "admin" = AccessLevel_token read_table →
     prompted
       (CustomSectionAPIImpl_configure read_table
          {| req_hasCustomOptions := None; requiredAccess := Some "admin" |}
          {| hasCustomOptions := false; prompted := [] |})
     = prompted {| hasCustomOptions := false; prompted := [] |})
  ∧ prompted
      (CustomSectionAPIImpl_configure read_table
         {| req_hasCustomOptions :=
              req_hasCustomOptions
                {| req_hasCustomOptions := None;
                   requiredAccess := Some "admin" |};
            requiredAccess := None |}
         {| hasCustomOptions := false; prompted := [] |})
    = prompted {| hasCustomOptions := false; prompted := [] |}
  ∧ hasCustomOptions
      (CustomSectionAPIImpl_configure read_table
         {| req_hasCustomOptions := None; requiredAccess := Some "admin" |}
         {| hasCustomOptions := false; prompted := [] |})
    = default (hasCustomOptions {| hasCustomOptions := false; prompted := [] |})
        (req_hasCustomOptions
           {| req_hasCustomOptions := None; requiredAccess := Some "admin" |}).
Proof.
  apply (configure_prompts read_table
           {| req_hasCustomOptions := None; requiredAccess := Some "admin" |}
           {| hasCustomOptions := false; prompted := [] |} "admin").
  reflexivity.
Defined.

(** ** The selected table and the selected record *)

Lemma lookup_map {A B : Type} (f : A → B) (l : list A) (i : nat) :
  map f l !! i = f <$> (l !! i).
Proof.
  revert i. induction l as [| a l IH]; intros [| i]; simpl; done.
Qed.

Section GristViewFacts.
Variable Cell : Type.
Variable TypeInfo : Type.
Variable number : Z → Cell.
Variable getRowPropFunc : string → option (Z → Cell).
Variable getValue : Z → string → Cell.
Variable extractInfoFromColType : string → TypeInfo.
Variable reencodeAsAny : Cell → TypeInfo → Cell.

Lemma column_values_length (field : ViewFieldRec) (rowIds : list Z)
    (column : list Cell) :
  column_values Cell TypeInfo getRowPropFunc extractInfoFromColType
    reencodeAsAny field rowIds = Return column →
  length column = length rowIds.
Proof.
  unfold column_values. destruct rowIds as [| r rowIds].
  - by intros [= <-].
  - destruct (getRowPropFunc (field_displayColId field)); [| done].
    intros [= <-]. simpl. by rewrite length_map.
Qed.

Lemma column_values_rows (field : ViewFieldRec) (rowIds : list Z) :
  rowIds ≠ [] →
  column_values Cell TypeInfo getRowPropFunc extractInfoFromColType
    reencodeAsAny field rowIds
  = match getRowPropFunc (field_displayColId field) with
    | Some getter =>
        Return
          (map (fun r =>
                  reencodeAsAny (getter r)
                    (extractInfoFromColType (field_type field)))
             rowIds)
    | None => Throw (TypeError "getter is not a function")
    end.
Proof. intros Hrows. destruct rowIds; [done | reflexivity]. Qed.

Lemma table_columns_rectangular (fields : list ViewFieldRec)
    (rowIds : list Z) (data data' : gmap string (list Cell)) :
  (∀ c column, data !! c = Some column → length column = length rowIds) →
  table_columns Cell TypeInfo getRowPropFunc extractInfoFromColType
    reencodeAsAny fields rowIds data = Return data' →
  ∀ c column, data' !! c = Some column → length column = length rowIds.
Proof.
  revert data. induction fields as [| field fields IH]; intros data Hrect.
  - by intros [= <-].
  - simpl.
    destruct (column_values Cell TypeInfo getRowPropFunc
                extractInfoFromColType reencodeAsAny field rowIds)
      as [column |] eqn:Hcol; [| done].
    apply IH. intros c column'.
    destruct (decide (field_colId field = c)) as [<- | Hne].
    + rewrite lookup_insert_eq. intros [= <-].
      exact (column_values_length field rowIds column Hcol).
    + rewrite lookup_insert_ne by done. apply Hrect.
Qed.

(** X26.  The selected table is rectangular: when [fetchSelectedTable]
    returns, the column [id] is the list of row ids of the view, in its
    order, and every column has exactly one value per row. *)
Theorem fetchSelectedTable_rectangular (fields : list ViewFieldRec)
    (rowIds : list Z) (data : gmap string (list Cell)) :
  fetchSelectedTable Cell TypeInfo number getRowPropFunc
    extractInfoFromColType reencodeAsAny fields rowIds = Return data →
  data !! "id" = Some (map number rowIds)
  ∧ ∀ c column, data !! c = Some column → length column = length rowIds.
Proof.
  unfold fetchSelectedTable.
  destruct (table_columns Cell TypeInfo getRowPropFunc
              extractInfoFromColType reencodeAsAny fields rowIds ∅)
    as [data0 |] eqn:Hcols; [| done].
  intros [= <-]. split; [apply lookup_insert_eq |].
  intros c column. destruct (decide (c = "id")) as [-> | Hne].
  - rewrite lookup_insert_eq. intros [= <-]. apply length_map.
  - rewrite lookup_insert_ne by done.
    apply (table_columns_rectangular fields rowIds ∅ data0); [| exact Hcols].
    intros c' column'. by rewrite lookup_empty.
Qed.

Lemma table_columns_no_rows (fields : list ViewFieldRec)
    (data : gmap string (list Cell)) :
  ∃ data',
    table_columns Cell TypeInfo getRowPropFunc extractInfoFromColType
      reencodeAsAny fields [] data = Return data'.
Proof.
  revert data. induction fields as [| field fields IH]; intros data.
  - by eexists.
  - simpl. apply IH.
Qed.

(** X27.  With no row in the view [fetchSelectedTable] always returns,
    even when a field shows a column the table data does not have: the
    reader of such a column is never called. *)
Theorem fetchSelectedTable_no_rows (fields : list ViewFieldRec) :
  ∃ data,
    fetchSelectedTable Cell TypeInfo number getRowPropFunc
      extractInfoFromColType reencodeAsAny fields [] = Return data
    ∧ data !! "id" = Some [].
Proof.
  unfold fetchSelectedTable.
  destruct (table_columns_no_rows fields ∅) as [data0 Hcols].
  rewrite Hcols. eexists. split; [reflexivity |]. apply lookup_insert_eq.
Qed.

Lemma table_columns_missing (fields : list ViewFieldRec) (rowIds : list Z)
    (data : gmap string (list Cell)) (field : ViewFieldRec) :
  rowIds ≠ [] → field ∈ fields →
  getRowPropFunc (field_displayColId field) = None →
  table_columns Cell TypeInfo getRowPropFunc extractInfoFromColType
    reencodeAsAny fields rowIds data
  = Throw (TypeError "getter is not a function").
Proof.
  intros Hrows Hin Hmissing. revert data.
  induction fields as [| f fields IH]; intros data.
  - by apply elem_of_nil in Hin.
  - simpl. rewrite column_values_rows by exact Hrows.
    destruct (getRowPropFunc (field_displayColId f)) as [getter |] eqn:Hg;
      [| reflexivity].
    apply elem_of_cons in Hin as [-> | Hin]; [congruence |].
    apply IH, Hin.
Qed.

(** X28.  With at least one row in the view, [fetchSelectedTable] fails
    with a [TypeError] as soon as one field shows a column the table
    data has no reader for; no partial table is returned. *)
Theorem fetchSelectedTable_missing_column (fields : list ViewFieldRec)
    (rowIds : list Z) (field : ViewFieldRec) :
  rowIds ≠ [] → field ∈ fields →
  getRowPropFunc (field_displayColId field) = None →
  fetchSelectedTable Cell TypeInfo number getRowPropFunc
    extractInfoFromColType reencodeAsAny fields rowIds
  = Throw (TypeError "getter is not a function").
Proof.
  intros Hrows Hin Hmissing. unfold fetchSelectedTable.
  by rewrite (table_columns_missing fields rowIds ∅ field).
Qed.

Lemma record_matches_columns (fields : list ViewFieldRec) (rowIds : list Z)
    (i : nat) (r : Z) (table table' : gmap string (list Cell))
    (record : gmap string Cell) (c : string) :
  (∀ colId getter row,
     getRowPropFunc colId = Some getter → getter row = getValue row colId) →
  rowIds !! i = Some r →
  record !! c = (table !! c) ≫= (fun column => column !! i) →
  table_columns Cell TypeInfo getRowPropFunc extractInfoFromColType
    reencodeAsAny fields rowIds table = Return table' →
  record_fields Cell TypeInfo getValue extractInfoFromColType reencodeAsAny
    fields r record !! c
  = (table' !! c) ≫= (fun column => column !! i).
Proof.
  intros Hagree Hrow. revert table record.
  induction fields as [| f fields IH]; intros table record Hinv.
  - by intros [= <-].
  - simpl. rewrite column_values_rows by (by intros ->).
    destruct (getRowPropFunc (field_displayColId f)) as [getter |] eqn:Hg;
      [| done].
    apply IH.
    destruct (decide (field_colId f = c)) as [<- | Hne].
    + rewrite !lookup_insert_eq. simpl.
      rewrite lookup_map, Hrow. simpl.
      by rewrite (Hagree _ _ r Hg).
    + rewrite !lookup_insert_ne by done. exact Hinv.
Qed.

(** X29.  The selected record is a row of the selected table: for the
    row at any position of the view, [fetchSelectedRecord] gives under
    every column other than [id] the value [fetchSelectedTable] lists at
    that position, and has no other columns; this as long as the two
    readers of the table data agree. *)
Theorem fetchSelectedRecord_matches_table (fields : list ViewFieldRec)
    (rowIds : list Z) (data : gmap string (list Cell)) (i : nat) (r : Z)
    (c : string) :
  (∀ colId getter row,
     getRowPropFunc colId = Some getter → getter row = getValue row colId) →
  fetchSelectedTable Cell TypeInfo number getRowPropFunc
    extractInfoFromColType reencodeAsAny fields rowIds = Return data →
  rowIds !! i = Some r → c ≠ "id" →
  fetchSelectedRecord Cell TypeInfo number getValue extractInfoFromColType
    reencodeAsAny fields r !! c
  = (data !! c) ≫= (fun column => column !! i).
Proof.
  intros Hagree Htable Hrow Hc. unfold fetchSelectedTable in Htable.
  destruct (table_columns Cell TypeInfo getRowPropFunc
              extractInfoFromColType reencodeAsAny fields rowIds ∅)
    as [data0 |] eqn:Hcols; [| done].
  injection Htable as <-. rewrite lookup_insert_ne by done.
  unfold fetchSelectedRecord.
  apply (record_matches_columns fields rowIds i r ∅ data0); try assumption.
  rewrite lookup_singleton_ne by done. by rewrite lookup_empty.
Qed.

Lemma record_fields_id (fields : list ViewFieldRec) (r : Z)
    (record : gmap string Cell) :
  Forall (fun f => field_colId f ≠ "id") fields →
  record_fields Cell TypeInfo getValue extractInfoFromColType reencodeAsAny
    fields r record !! "id"
  = record !! "id".
Proof.
  intros Hall. revert record.
  induction Hall as [| f fields Hf _ IH]; intros record; [reflexivity |].
  simpl. rewrite IH. by rewrite lookup_insert_ne.
Qed.

(** X30.  The selected record carries its row id under [id] as long as
    no field shows a column called [id]. *)
Theorem fetchSelectedRecord_id (fields : list ViewFieldRec) (r : Z) :
  Forall (fun f => field_colId f ≠ "id") fields →
  fetchSelectedRecord Cell TypeInfo number getValue extractInfoFromColType
    reencodeAsAny fields r !! "id"
  = Some (number r).
Proof.
  intros Hall. unfold fetchSelectedRecord.
  rewrite record_fields_id by exact Hall. apply lookup_singleton_eq.
Qed.
End GristViewFacts.

Lemma sample_readers_agree (colId : string) (getter : Z → JsValue) (row : Z) :
  sample_getRowPropFunc colId = Some getter → getter row = sample_cell row colId.
Proof.
  unfold sample_getRowPropFunc.
  destruct (bool_decide (colId ∈ ["Name"; "Age"])); [| discriminate].
  intros [= <-]. reflexivity.
Qed.

Lemma fetchSelectedTable_rectangular_witness :
  sample_table_data !! "id" = Some (map JsNumber [1; 2]%Z)
  ∧ ∀ c column,
      sample_table_data !! c = Some column →
      length column = length [1; 2]%Z.
Proof.
  apply (fetchSelectedTable_rectangular JsValue string JsNumber
           sample_getRowPropFunc (fun t => t) (fun v _ => v) sample_fields
           [1; 2]%Z sample_table_data).
  reflexivity.
Defined.

Lemma fetchSelectedTable_missing_column_witness :
  fetchSelectedTable JsValue string JsNumber sample_getRowPropFunc
    (fun t => t) (fun v _ => v) (sample_fields ++ [sample_reference_field])
    [1; 2]%Z
  = Throw (TypeError "getter is not a function").
Proof.
  apply (fetchSelectedTable_missing_column JsValue string JsNumber
           sample_getRowPropFunc (fun t => t) (fun v _ => v)
           (sample_fields ++ [sample_reference_field]) [1; 2]%Z
           sample_reference_field).
  - discriminate.
  - apply elem_of_app. right. apply list_elem_of_singleton. reflexivity.
  - reflexivity.
Defined.

Lemma fetchSelectedRecord_matches_table_witness :
  fetchSelectedRecord JsValue string JsNumber sample_cell (fun t => t)
    (fun v _ => v) sample_fields 2 !! "Name"
  = (sample_table_data !! "Name") ≫= (fun column => column !! 1).
Proof.
  apply (fetchSelectedRecord_matches_table JsValue string JsNumber
           sample_getRowPropFunc sample_cell (fun t => t) (fun v _ => v)
           sample_fields [1; 2]%Z sample_table_data 1 2%Z "Name").
  - exact sample_readers_agree.
  - reflexivity.
  - reflexivity.
  - discriminate.
Defined.

Lemma fetchSelectedRecord_id_witness :
  fetchSelectedRecord JsValue string JsNumber sample_cell (fun t => t)
    (fun v _ => v) sample_fields 2 !! "id"
  = Some (JsNumber 2).
Proof.
  apply (fetchSelectedRecord_id JsValue string JsNumber sample_cell
           (fun t => t) (fun v _ => v) sample_fields 2%Z).
  repeat constructor; discriminate.
Defined.

(** The selected record of row 2 of the sample table. *)
Example sample_record :
  fetchSelectedRecord JsValue string JsNumber sample_cell (fun t => t)
    (fun v _ => v) sample_fields 2
  = <["Age" := JsNumber 20]> (<["Name" := JsString "Bob"]>
                                {["id" := JsNumber 2]}).
Proof. reflexivity. Qed.

(** A field that shows a column called [id] takes the place of the row id
    in the record, not in the table. *)
Example id_column_shadows_row_id :
  fetchSelectedRecord JsValue string JsNumber sample_cell (fun t => t)
    (fun v _ => v)
    [{| field_colId := "id"; field_displayColId := "Name";
        field_type := "Text" |}] 2 !! "id"
  = Some (JsString "Bob")
  ∧ fetchSelectedTable JsValue string JsNumber sample_getRowPropFunc
      (fun t => t) (fun v _ => v)
      [{| field_colId := "id"; field_displayColId := "Name";
          field_type := "Text" |}] [1; 2]%Z
    = Return {["id" := [JsNumber 1; JsNumber 2]]}.
Proof. split; reflexivity. Qed.
